(** * The consumer of go-rabbitmq (consume.go), embedded in Rocq.

    The consumer talks to an external AMQP channel, logs, sleeps and spawns
    goroutines.  Every such effect is an [Event]; a run of a function of
    consume.go is a transformer of the chronological list of events seen so
    far (the [World]).  The transport is an oracle: what a channel method, a
    delivery acknowledgement or the user handler returns may depend on
    everything that has happened before. *)

From Stdlib Require Import ZArith List String Bool Lia.
Import ListNotations.
Open Scope string_scope.
Open Scope list_scope.
Open Scope Z_scope.

(** ** Machine integers *)

(** [time.Duration] is an [int64] count of nanoseconds; Go arithmetic on it
    wraps around silently. *)
Definition wrap64 (z : Z) : Z := (z + 2 ^ 63) mod 2 ^ 64 - 2 ^ 63.

(** [time.Second] *)
Definition Second : Z := 1000000000.

(** ** Errors *)

(** A Go [error] value: either one produced by the transport (an
    [*amqp.Error] with its code and reason) or one built by [fmt.Errorf]. *)
Inductive error : Type :=
| AmqpError (code : Z) (reason : string)
| Errorf (msg : string).

(** ** Deliveries *)

(** [Delivery] wraps [amqp.Delivery]; the tag identifies the message on its
    channel. *)
Record Delivery : Type := mkDelivery {
  DeliveryTag : Z;
  Body : string
}.

(** The two dispositions a worker can give a delivery:
    [msg.Ack(multiple)] and [msg.Nack(multiple, requeue)]. *)
Inductive Disposition : Type :=
| Ack (multiple : bool)
| Nack (multiple requeue : bool).

Inductive loop_result : Type :=
| Exited          (* the Go loop reached its [break] / end of range *)
| StillRetrying.  (* the fuel of the model ran out inside the loop *)

Section Consumer.

(** [Table], [amqp.Table] and [tableToAMQPTable] are declared outside
    consume.go; the consumer only passes tables through. *)
Context {Table AMQPTable : Type}.
Variable tableToAMQPTable : Table -> AMQPTable.
(** The zero value of a [Table] (a nil map). *)
Variable nilTable : Table.

(** ** Options (fields as consume.go reads them) *)

Record BindingExchangeOptions : Type := mkBindingExchangeOptions {
  Name : string;
  Kind : string;
  Durable : bool;
  AutoDelete : bool;
  Internal : bool;
  NoWait : bool;
  ExchangeArgs : Table
}.

Record ConsumeOptions : Type := mkConsumeOptions {
  QueueDurable : bool;
  QueueAutoDelete : bool;
  QueueExclusive : bool;
  QueueNoWait : bool;
  QueueArgs : Table;
  BindingExchange : option BindingExchangeOptions;   (* a pointer; nil = None *)
  BindingNoWait : bool;
  BindingArgs : Table;
  Concurrency : Z;
  QOSPrefetch : Z;
  QOSGlobal : bool;
  ConsumerName : string;
  ConsumerAutoAck : bool;
  ConsumerExclusive : bool;
  ConsumerNoWait : bool;
  ConsumerNoLocal : bool;
  ConsumerArgs : Table
}.

(** [&ConsumeOptions{}] *)
Definition zeroConsumeOptions : ConsumeOptions :=
  {| QueueDurable := false; QueueAutoDelete := false; QueueExclusive := false;
     QueueNoWait := false; QueueArgs := nilTable; BindingExchange := None;
     BindingNoWait := false; BindingArgs := nilTable; Concurrency := 0;
     QOSPrefetch := 0; QOSGlobal := false; ConsumerName := "";
     ConsumerAutoAck := false; ConsumerExclusive := false;
     ConsumerNoWait := false; ConsumerNoLocal := false;
     ConsumerArgs := nilTable |}.

Definition setConcurrency (n : Z) (o : ConsumeOptions) : ConsumeOptions :=
  {| QueueDurable := QueueDurable o; QueueAutoDelete := QueueAutoDelete o;
     QueueExclusive := QueueExclusive o; QueueNoWait := QueueNoWait o;
     QueueArgs := QueueArgs o; BindingExchange := BindingExchange o;
     BindingNoWait := BindingNoWait o; BindingArgs := BindingArgs o;
     Concurrency := n;
     QOSPrefetch := QOSPrefetch o; QOSGlobal := QOSGlobal o;
     ConsumerName := ConsumerName o; ConsumerAutoAck := ConsumerAutoAck o;
     ConsumerExclusive := ConsumerExclusive o;
     ConsumerNoWait := ConsumerNoWait o; ConsumerNoLocal := ConsumerNoLocal o;
     ConsumerArgs := ConsumerArgs o |}.

(** Modelled from the spec: [getDefaultConsumeOptions] is defined outside
    consume.go.  The spec only says that the default substituted for a
    concurrency below one is itself at least one; the default options are
    therefore a parameter, and that bound is stated as a hypothesis where a
    result needs it. *)
Variable getDefaultConsumeOptions : ConsumeOptions.

(** ** Events *)

(** The methods of [amqp.Channel] the consumer calls, with their arguments
    in the order of the Go signatures. *)
Inductive ChannelCall : Type :=
| QueueDeclare (name : string) (durable autoDelete exclusive noWait : bool)
               (args : AMQPTable)
| ExchangeDeclare (name kind : string)
                  (durable autoDelete internal noWait : bool)
                  (args : AMQPTable)
| QueueBind (name key exchange : string) (noWait : bool) (args : AMQPTable)
| Qos (prefetchCount prefetchSize : Z) (global : bool)
| Consume (queue consumer : string)
          (autoAck exclusive noLocal noWait : bool) (args : AMQPTable).

(** The [go func() { ... }()] statements of consume.go. *)
Inductive Goroutine : Type :=
| WorkerLoop (autoAck : bool)   (* a worker ranging over the delivery stream *)
| Supervisor.                   (* the listener on [notifyCancelOrClose] *)

Inductive LogArg : Type :=
| ArgError (e : error)
| ArgDuration (d : Z)
| ArgInt (n : Z).

Inductive Event : Type :=
| EvRLock
| EvRUnlock
| EvChannel (c : ChannelCall) (result : option error)
| EvGo (g : Goroutine)
| EvPrintf (format : string) (args : list LogArg)
| EvSleep (d : Z)
| EvHandler (d : Delivery) (result : bool)
| EvDisposition (d : Delivery) (c : Disposition) (result : option error).

(** Everything that has happened so far, oldest first. *)
Definition World : Type := list Event.

(** ** The transport and the consumer *)

Record Channel : Type := mkChannel {
  (** result of a channel method, given the history *)
  call : World -> ChannelCall -> option error;
  (** result of [msg.Ack] / [msg.Nack], given the history *)
  acknowledge : World -> Delivery -> Disposition -> option error
}.

Record channelManager : Type := mkChannelManager {
  channel : Channel;
  (** the errors the manager sends on [notifyCancelOrClose], in order *)
  notifyCancelOrClose : list error
}.

Record Consumer : Type := mkConsumer {
  chManager : channelManager
}.

(** [handler func(d Delivery) bool]; a Go closure may keep state, so its
    answer may depend on the history. *)
Definition Handler : Type := World -> Delivery -> bool.

(** ** A state monad over the world *)

Definition M (A : Type) : Type := World -> A * World.

Definition ret {A : Type} (a : A) : M A := fun w => (a, w).

Definition bind {A B : Type} (m : M A) (k : A -> M B) : M B :=
  fun w => let (a, w') := m w in k a w'.

Definition emit (e : Event) : M unit := fun w => (tt, w ++ [e]).

Notation "x <- m ;; k" := (bind m (fun x => k))
  (at level 61, m at next level, right associativity).
Notation "m ;; k" := (bind m (fun _ => k))
  (at level 61, right associativity).

(** [err := m; if err != nil { return err }; k] *)
Definition orReturn (m k : M (option error)) : M (option error) :=
  err <- m ;;
  match err with
  | Some e => ret (Some e)
  | None => k
  end.

Notation "'check' m ;; k" := (orReturn m k)
  (at level 61, m at next level, right associativity).

Definition Printf (format : string) (args : list LogArg) : M unit :=
  emit (EvPrintf format args).

Definition Sleep (d : Z) : M unit := emit (EvSleep d).

Definition channelCall (consumer : Consumer) (c : ChannelCall)
  : M (option error) :=
  fun w =>
    let r := call (channel (chManager consumer)) w c in
    (r, w ++ [EvChannel c r]).

Definition callHandler (handler : Handler) (d : Delivery) : M bool :=
  fun w => let r := handler w d in (r, w ++ [EvHandler d r]).

Definition dispose (consumer : Consumer) (d : Delivery) (c : Disposition)
  : M (option error) :=
  fun w =>
    let r := acknowledge (channel (chManager consumer)) w d c in
    (r, w ++ [EvDisposition d c r]).

(** ** The worker goroutine (consume.go, lines 243-262) *)

(** One iteration of [for msg := range msgs]. *)
Definition processDelivery (consumer : Consumer) (handler : Handler)
    (consumeOptions : ConsumeOptions) (msg : Delivery) : M unit :=
  if ConsumerAutoAck consumeOptions then
    _ <- callHandler handler msg ;;
    ret tt
  else
    ok <- callHandler handler msg ;;
    if ok then
      err <- dispose consumer msg (Ack false) ;;
      match err with
      | Some e => Printf "can't ack message: %v" [ArgError e]
      | None => ret tt
      end
    else
      err <- dispose consumer msg (Nack false true) ;;
      match err with
      | Some e => Printf "can't nack message: %v" [ArgError e]
      | None => ret tt
      end.

(** The body of a worker goroutine; [msgs] are the deliveries this worker
    receives from the stream before it is closed. *)
Fixpoint workerLoop (consumer : Consumer) (handler : Handler)
    (consumeOptions : ConsumeOptions) (msgs : list Delivery) : M unit :=
  match msgs with
  | [] => Printf "rabbit consumer goroutine closed" []
  | msg :: rest =>
      processDelivery consumer handler consumeOptions msg ;;
      workerLoop consumer handler consumeOptions rest
  end.

(** ** The declare-and-start cycle (consume.go, lines 168-266) *)

(** [for _, routingKey := range routingKeys { QueueBind ... }] *)
Fixpoint bindRoutingKeys (consumer : Consumer) (queue : string)
    (routingKeys : list string) (exchange : BindingExchangeOptions)
    (consumeOptions : ConsumeOptions) : M (option error) :=
  match routingKeys with
  | [] => ret None
  | routingKey :: rest =>
      check channelCall consumer
              (QueueBind queue routingKey (Name exchange)
                 (BindingNoWait consumeOptions)
                 (tableToAMQPTable (BindingArgs consumeOptions))) ;;
      bindRoutingKeys consumer queue rest exchange consumeOptions
  end.

(** [for i := 0; i < consumeOptions.Concurrency; i++ { go func() ... }];
    [n] is the number of iterations left. *)
Fixpoint spawnWorkers (consumeOptions : ConsumeOptions) (n : nat) : M unit :=
  match n with
  | O => ret tt
  | S n' =>
      emit (EvGo (WorkerLoop (ConsumerAutoAck consumeOptions))) ;;
      spawnWorkers consumeOptions n'
  end.

(** The part of [startGoroutines] between [RLock] and the deferred
    [RUnlock]. *)
Definition declareAndStart (consumer : Consumer) (handler : Handler)
    (queue : string) (routingKeys : list string)
    (consumeOptions : ConsumeOptions) : M (option error) :=
  check channelCall consumer
          (QueueDeclare queue
             (QueueDurable consumeOptions)
             (QueueAutoDelete consumeOptions)
             (QueueExclusive consumeOptions)
             (QueueNoWait consumeOptions)
             (tableToAMQPTable (QueueArgs consumeOptions))) ;;
  check match BindingExchange consumeOptions with
        | Some exchange =>
            if String.eqb (Name exchange) "" then
              ret (Some (Errorf "binding to exchange but name not specified"))
            else
              check channelCall consumer
                      (ExchangeDeclare (Name exchange) (Kind exchange)
                         (Durable exchange) (AutoDelete exchange)
                         (Internal exchange) (NoWait exchange)
                         (tableToAMQPTable (ExchangeArgs exchange))) ;;
              bindRoutingKeys consumer queue routingKeys exchange
                consumeOptions
        | None => ret None
        end ;;
  check channelCall consumer
          (Qos (QOSPrefetch consumeOptions) 0 (QOSGlobal consumeOptions)) ;;
  check channelCall consumer
          (Consume queue
             (ConsumerName consumeOptions)
             (ConsumerAutoAck consumeOptions)
             (ConsumerExclusive consumeOptions)
             (ConsumerNoLocal consumeOptions)
             (ConsumerNoWait consumeOptions)
             (tableToAMQPTable (ConsumerArgs consumeOptions))) ;;
  spawnWorkers consumeOptions (Z.to_nat (Concurrency consumeOptions)) ;;
  Printf "Processing messages on %v goroutines"
    [ArgInt (Concurrency consumeOptions)] ;;
  ret None.

Definition startGoroutines (consumer : Consumer) (handler : Handler)
    (queue : string) (routingKeys : list string)
    (consumeOptions : ConsumeOptions) : M (option error) :=
  emit EvRLock ;;
  err <- declareAndStart consumer handler queue routingKeys consumeOptions ;;
  emit EvRUnlock ;;
  ret err.

(** ** The recovery loop (consume.go, lines 140-163) *)

(** The [for { ... }] of [startGoroutinesWithRetries] with the current value
    of its local [backoffTime]; [fuel] bounds the iterations of the model. *)
Fixpoint retryLoop (fuel : nat) (backoffTime : Z) (consumer : Consumer)
    (handler : Handler) (queue : string) (routingKeys : list string)
    (consumeOptions : ConsumeOptions) : M loop_result :=
  match fuel with
  | O => ret StillRetrying
  | S fuel' =>
      Printf "waiting %s seconds to attempt to start consumer goroutines"
        [ArgDuration backoffTime] ;;
      Sleep backoffTime ;;
      err <- startGoroutines consumer handler queue routingKeys
               consumeOptions ;;
      match err with
      | Some e =>
          Printf "couldn't start consumer goroutines. err: %v" [ArgError e] ;;
          retryLoop fuel' (wrap64 (backoffTime * 2)) consumer handler queue
            routingKeys consumeOptions
      | None => ret Exited
      end
  end.

Definition startGoroutinesWithRetries (fuel : nat) (consumer : Consumer)
    (handler : Handler) (queue : string) (routingKeys : list string)
    (consumeOptions : ConsumeOptions) : M loop_result :=
  retryLoop fuel Second consumer handler queue routingKeys consumeOptions.

(** ** StartConsuming (consume.go, lines 92-129) *)

(** [for _, optionFunc := range optionFuncs { optionFunc(options) }] *)
Definition applyOptionFuncs
    (optionFuncs : list (ConsumeOptions -> ConsumeOptions))
    (options : ConsumeOptions) : ConsumeOptions :=
  fold_left (fun o optionFunc => optionFunc o) optionFuncs options.

(** The options [StartConsuming] hands to the cycle (lines 98-105). *)
Definition resolveOptions
    (optionFuncs : list (ConsumeOptions -> ConsumeOptions))
  : ConsumeOptions :=
  let defaultOptions := getDefaultConsumeOptions in
  let options := applyOptionFuncs optionFuncs zeroConsumeOptions in
  if Concurrency options <? 1 then
    setConcurrency (Concurrency defaultOptions) options
  else options.

Definition StartConsuming (consumer : Consumer) (handler : Handler)
    (queue : string) (routingKeys : list string)
    (optionFuncs : list (ConsumeOptions -> ConsumeOptions))
  : M (option error) :=
  let options := resolveOptions optionFuncs in
  check startGoroutines consumer handler queue routingKeys options ;;
  emit (EvGo Supervisor) ;;
  ret None.

(** The goroutine started at line 117:
    [for err := range notifyCancelOrClose { Printf; startGoroutinesWithRetries }].
    [notifications] is what is still to be received. *)
Fixpoint supervise (fuel : nat) (notifications : list error)
    (consumer : Consumer) (handler : Handler) (queue : string)
    (routingKeys : list string) (options : ConsumeOptions) : M loop_result :=
  match notifications with
  | [] => ret Exited
  | err :: rest =>
      Printf "consume cancel/close handler triggered. err: %v"
        [ArgError err] ;;
      r <- startGoroutinesWithRetries fuel consumer handler queue routingKeys
             options ;;
      match r with
      | Exited =>
          supervise fuel rest consumer handler queue routingKeys options
      | StillRetrying => ret StillRetrying
      end
  end.

(** ** Observations on traces *)

(** The events a run appended to the world [w] it started from. *)
Definition added (w w' : World) : list Event := skipn (List.length w) w'.

Definition handlerCalls (t : list Event) : list (Delivery * bool) :=
  flat_map (fun e => match e with
                     | EvHandler d r => [(d, r)]
                     | _ => []
                     end) t.

Definition dispositions (t : list Event) : list (Delivery * Disposition) :=
  flat_map (fun e => match e with
                     | EvDisposition d c _ => [(d, c)]
                     | _ => []
                     end) t.

Definition sleeps (t : list Event) : list Z :=
  flat_map (fun e => match e with
                     | EvSleep d => [d]
                     | _ => []
                     end) t.

Definition channelCalls (t : list Event) : list ChannelCall :=
  flat_map (fun e => match e with
                     | EvChannel c _ => [c]
                     | _ => []
                     end) t.

Definition spawned (t : list Event) : list Goroutine :=
  flat_map (fun e => match e with
                     | EvGo g => [g]
                     | _ => []
                     end) t.

Definition isWorker (g : Goroutine) : bool :=
  match g with
  | WorkerLoop _ => true
  | Supervisor => false
  end.

Definition isSupervisor (g : Goroutine) : bool :=
  match g with
  | WorkerLoop _ => false
  | Supervisor => true
  end.

Definition isQueueBind (c : ChannelCall) : bool :=
  match c with
  | QueueBind _ _ _ _ _ => true
  | _ => false
  end.

Definition isExchangeDeclare (c : ChannelCall) : bool :=
  match c with
  | ExchangeDeclare _ _ _ _ _ _ _ => true
  | _ => false
  end.

(** A handler event with the returned boolean forgotten. *)
Definition eraseResult (e : Event) : Event :=
  match e with
  | EvHandler d _ => EvHandler d true
  | _ => e
  end.

Definition Delivery_eqb (a b : Delivery) : bool :=
  (DeliveryTag a =? DeliveryTag b) && String.eqb (Body a) (Body b).

(** The error [startGoroutines] builds at line 192. *)
Definition configError : error :=
  Errorf "binding to exchange but name not specified".

(** ** Traces of the worker, of the cycle and of the recovery loop *)

Definition closedLog : Event := EvPrintf "rabbit consumer goroutine closed" [].

(** The log line a worker prints when the disposition [c] fails with [e]. *)
Definition dispositionLog (c : Disposition) (e : error) : Event :=
  match c with
  | Ack _ => EvPrintf "can't ack message: %v" [ArgError e]
  | Nack _ _ => EvPrintf "can't nack message: %v" [ArgError e]
  end.

(** What one iteration of the worker appends to the world [w]. *)
Definition deliveryEvents (consumer : Consumer) (handler : Handler)
    (consumeOptions : ConsumeOptions) (msg : Delivery) (w : World)
  : list Event :=
  let ok := handler w msg in
  if ConsumerAutoAck consumeOptions then [EvHandler msg ok]
  else
    let c := if ok then Ack false else Nack false true in
    let r := acknowledge (channel (chManager consumer))
               (w ++ [EvHandler msg ok]) msg c in
    EvHandler msg ok :: EvDisposition msg c r ::
    match r with
    | Some e => [dispositionLog c e]
    | None => []
    end.

Fixpoint workerEvents (consumer : Consumer) (handler : Handler)
    (consumeOptions : ConsumeOptions) (msgs : list Delivery) (w : World)
  : list Event :=
  match msgs with
  | [] => [closedLog]
  | msg :: rest =>
      let t := deliveryEvents consumer handler consumeOptions msg w in
      t ++ workerEvents consumer handler consumeOptions rest (w ++ t)
  end.

Ltac step :=
  unfold orReturn, bind, channelCall, callHandler, dispose, Printf, Sleep,
    emit, ret; simpl.

(** The disposition the worker owes a delivery whose handler returned
    [ok] (lines 249-259). *)
Definition dispositionFor (hc : Delivery * bool) : Delivery * Disposition :=
  (fst hc, if snd hc then Ack false else Nack false true).

(** In [t], every disposition that returned an error is directly followed
    by the log line for it. *)
Definition failuresLogged (t : list Event) : Prop :=
  forall pre d c e post,
    t = pre ++ EvDisposition d c (Some e) :: post ->
    exists post', post = dispositionLog c e :: post'.

Definition isFailedDisposition (e : Event) : bool :=
  match e with
  | EvDisposition _ _ (Some _) => true
  | _ => false
  end.

Definition queueDeclareCall (queue : string) (consumeOptions : ConsumeOptions)
  : ChannelCall :=
  QueueDeclare queue (QueueDurable consumeOptions)
    (QueueAutoDelete consumeOptions) (QueueExclusive consumeOptions)
    (QueueNoWait consumeOptions) (tableToAMQPTable (QueueArgs consumeOptions)).

Definition exchangeDeclareCall (exchange : BindingExchangeOptions)
  : ChannelCall :=
  ExchangeDeclare (Name exchange) (Kind exchange) (Durable exchange)
    (AutoDelete exchange) (Internal exchange) (NoWait exchange)
    (tableToAMQPTable (ExchangeArgs exchange)).

Definition queueBindCall (queue : string) (exchange : BindingExchangeOptions)
    (consumeOptions : ConsumeOptions) (routingKey : string) : ChannelCall :=
  QueueBind queue routingKey (Name exchange) (BindingNoWait consumeOptions)
    (tableToAMQPTable (BindingArgs consumeOptions)).

Definition qosCall (consumeOptions : ConsumeOptions) : ChannelCall :=
  Qos (QOSPrefetch consumeOptions) 0 (QOSGlobal consumeOptions).

Definition consumeCall (queue : string) (consumeOptions : ConsumeOptions)
  : ChannelCall :=
  Consume queue (ConsumerName consumeOptions) (ConsumerAutoAck consumeOptions)
    (ConsumerExclusive consumeOptions) (ConsumerNoLocal consumeOptions)
    (ConsumerNoWait consumeOptions)
    (tableToAMQPTable (ConsumerArgs consumeOptions)).

Definition ok (c : ChannelCall) : Event := EvChannel c None.

(** The exchange declaration and the bindings of a cycle that succeeds. *)
Definition bindingEvents (queue : string) (routingKeys : list string)
    (consumeOptions : ConsumeOptions) : list Event :=
  match BindingExchange consumeOptions with
  | Some exchange =>
      ok (exchangeDeclareCall exchange) ::
      map (fun k => ok (queueBindCall queue exchange consumeOptions k))
        routingKeys
  | None => []
  end.

(** Everything a cycle that succeeds appends to the world. *)
Definition successEvents (queue : string) (routingKeys : list string)
    (consumeOptions : ConsumeOptions) : list Event :=
  [EvRLock; ok (queueDeclareCall queue consumeOptions)]
  ++ bindingEvents queue routingKeys consumeOptions
  ++ [ok (qosCall consumeOptions); ok (consumeCall queue consumeOptions)]
  ++ repeat (EvGo (WorkerLoop (ConsumerAutoAck consumeOptions)))
       (Z.to_nat (Concurrency consumeOptions))
  ++ [EvPrintf "Processing messages on %v goroutines"
        [ArgInt (Concurrency consumeOptions)];
      EvRUnlock].

(** The events a cycle can append, successful or not. *)
Definition cycleEvent (e : Event) : bool :=
  match e with
  | EvRLock | EvRUnlock | EvChannel _ _ | EvPrintf _ _ => true
  | EvGo g => isWorker g
  | EvSleep _ | EvHandler _ _ | EvDisposition _ _ _ => false
  end.

(** [m] only appends to the world, and only events that satisfy [P]. *)
Definition appends {A : Type} (P : Event -> bool) (m : M A) : Prop :=
  forall w, exists t, snd (m w) = w ++ t /\ forallb P t = true.

(** The events of a cycle that has no binding descriptor. *)
Definition unboundEvent (e : Event) : bool :=
  match e with
  | EvChannel c _ => negb (isExchangeDeclare c || isQueueBind c)
  | _ => true
  end.

Definition waitingLog (backoffTime : Z) : Event :=
  EvPrintf "waiting %s seconds to attempt to start consumer goroutines"
    [ArgDuration backoffTime].

Definition failureLog (e : error) : Event :=
  EvPrintf "couldn't start consumer goroutines. err: %v" [ArgError e].

(** One pass through the body of the loop up to the test of [err]: log,
    sleep, cycle. *)
Definition attempt (backoffTime : Z) (consumer : Consumer) (handler : Handler)
    (queue : string) (routingKeys : list string)
    (consumeOptions : ConsumeOptions) (w : World) : option error * World :=
  startGoroutines consumer handler queue routingKeys consumeOptions
    (w ++ [waitingLog backoffTime; EvSleep backoffTime]).

(** The value of [backoffTime] after [j] doublings. *)
Definition backoffAt (b0 : Z) (j : nat) : Z :=
  Nat.iter j (fun b => wrap64 (b * 2)) b0.

(** The [backoffTime] and the world at the head of the loop after [k]
    passes, none of which left the loop. *)
Fixpoint iteration (k : nat) (b0 : Z) (consumer : Consumer)
    (handler : Handler) (queue : string) (routingKeys : list string)
    (consumeOptions : ConsumeOptions) (w0 : World) : Z * World :=
  match k with
  | O => (b0, w0)
  | S k' =>
      let (b, w) := iteration k' b0 consumer handler queue routingKeys
                      consumeOptions w0 in
      let (err, w') := attempt b consumer handler queue routingKeys
                         consumeOptions w in
      (wrap64 (b * 2),
       match err with
       | Some e => w' ++ [failureLog e]
       | None => w'
       end)
  end.

(** The pass number [j] (from zero) of a loop started in [w0]. *)
Definition attemptAt (j : nat) (b0 : Z) (consumer : Consumer)
    (handler : Handler) (queue : string) (routingKeys : list string)
    (consumeOptions : ConsumeOptions) (w0 : World) : option error * World :=
  let s := iteration j b0 consumer handler queue routingKeys consumeOptions
             w0 in
  attempt (fst s) consumer handler queue routingKeys consumeOptions (snd s).

(** ** Further observations *)

Definition channelResults (t : list Event) : list (option error) :=
  flat_map (fun e => match e with
                     | EvChannel _ r => [r]
                     | _ => []
                     end) t.

Definition isLockEvent (e : Event) : bool :=
  match e with
  | EvRLock | EvRUnlock => true
  | _ => false
  end.

Definition isPrintf (e : Event) : bool :=
  match e with
  | EvPrintf _ _ => true
  | _ => false
  end.

(** The channel methods a cycle means to call, in the order of
    [startGoroutines]. *)
Definition plannedCalls (queue : string) (routingKeys : list string)
    (consumeOptions : ConsumeOptions) : list ChannelCall :=
  queueDeclareCall queue consumeOptions ::
  match BindingExchange consumeOptions with
  | Some exchange =>
      exchangeDeclareCall exchange ::
      map (queueBindCall queue exchange consumeOptions) routingKeys
  | None => []
  end
  ++ [qosCall consumeOptions; consumeCall queue consumeOptions].

(** The spawns and the log line that end a cycle that succeeds. *)
Definition startEvents (consumeOptions : ConsumeOptions) : list Event :=
  repeat (EvGo (WorkerLoop (ConsumerAutoAck consumeOptions)))
    (Z.to_nat (Concurrency consumeOptions))
  ++ [EvPrintf "Processing messages on %v goroutines"
        [ArgInt (Concurrency consumeOptions)]].

(** The three ways a cycle can end, with the result [r] it returns and the
    events [t] it appends. *)
Definition cycleOutcome (queue : string) (routingKeys : list string)
    (consumeOptions : ConsumeOptions) (r : option error) (t : list Event)
  : Prop :=
  let plan := plannedCalls queue routingKeys consumeOptions in
  (r = None /\
   t = EvRLock :: map ok plan ++ startEvents consumeOptions ++ [EvRUnlock])
  \/
  (exists done c rest e,
     plan = done ++ c :: rest /\ r = Some e /\
     t = EvRLock :: map ok done ++ [EvChannel c (Some e); EvRUnlock])
  \/
  (exists exchange,
     BindingExchange consumeOptions = Some exchange /\
     Name exchange = "" /\ r = Some configError /\
     t = [EvRLock; ok (queueDeclareCall queue consumeOptions); EvRUnlock]).

(** The line the supervising goroutine logs for a notification. *)
Definition triggerLog (err : error) : Event :=
  EvPrintf "consume cancel/close handler triggered. err: %v" [ArgError err].

(** In [t], every handler call is directly followed by the disposition of
    the same delivery that the returned boolean asks for. *)
Definition disposedAtOnce (t : list Event) : Prop :=
  forall pre d r post,
    t = pre ++ EvHandler d r :: post ->
    exists res post',
      post = EvDisposition d (if r then Ack false else Nack false true) res
             :: post'.

Definition isHandlerCall (e : Event) : bool :=
  match e with
  | EvHandler _ _ => true
  | _ => false
  end.

Definition sumZ (l : list Z) : Z := fold_right Z.add 0 l.

(** ** Basic facts *)

Lemma added_app (w t : list Event) : added w (w ++ t) = t.
Proof.
  unfold added. induction w as [|e w IH]; simpl; [reflexivity | exact IH].
Qed.

Lemma handlerCalls_app (a b : list Event) :
  handlerCalls (a ++ b) = handlerCalls a ++ handlerCalls b.
Proof. apply flat_map_app. Qed.

Lemma dispositions_app (a b : list Event) :
  dispositions (a ++ b) = dispositions a ++ dispositions b.
Proof. apply flat_map_app. Qed.

Lemma sleeps_app (a b : list Event) : sleeps (a ++ b) = sleeps a ++ sleeps b.
Proof. apply flat_map_app. Qed.

Lemma channelCalls_app (a b : list Event) :
  channelCalls (a ++ b) = channelCalls a ++ channelCalls b.
Proof. apply flat_map_app. Qed.

Lemma spawned_app (a b : list Event) :
  spawned (a ++ b) = spawned a ++ spawned b.
Proof. apply flat_map_app. Qed.

Lemma Delivery_eqb_eq (a b : Delivery) : Delivery_eqb a b = true <-> a = b.
Proof.
  destruct a as [ta ba], b as [tb bb]; unfold Delivery_eqb; simpl.
  rewrite andb_true_iff, Z.eqb_eq, String.eqb_eq.
  split; [intros [-> ->]; reflexivity | intros H; inversion H; auto].
Qed.

(** ** The worker loop, event by event *)

Lemma processDelivery_world consumer handler consumeOptions msg w :
  snd (processDelivery consumer handler consumeOptions msg w)
  = w ++ deliveryEvents consumer handler consumeOptions msg w.
Proof.
  unfold processDelivery, deliveryEvents.
  destruct (ConsumerAutoAck consumeOptions); step; [reflexivity|].
  destruct (handler w msg); step;
    match goal with
    | |- context [acknowledge ?c ?w' ?d ?k] =>
        destruct (acknowledge c w' d k)
    end; simpl; rewrite <- ?app_assoc; reflexivity.
Qed.

Lemma workerLoop_world consumer handler consumeOptions msgs : forall w,
  snd (workerLoop consumer handler consumeOptions msgs w)
  = w ++ workerEvents consumer handler consumeOptions msgs w.
Proof.
  induction msgs as [|msg rest IH]; intros w; simpl.
  - reflexivity.
  - unfold bind.
    pose proof (processDelivery_world consumer handler consumeOptions msg w)
      as Hd.
    destruct (processDelivery consumer handler consumeOptions msg w)
      as [u w'].
    simpl in Hd; subst w'. rewrite IH, <- app_assoc. reflexivity.
Qed.

(** The handler is called on every delivery of the stream, once, in order,
    whatever the options and whatever the transport answers. *)
Lemma workerEvents_handlerCalls consumer handler consumeOptions msgs :
  forall w,
  map fst (handlerCalls
             (workerEvents consumer handler consumeOptions msgs w)) = msgs.
Proof.
  induction msgs as [|msg rest IH]; intros w; simpl; [reflexivity|].
  rewrite handlerCalls_app, map_app, IH.
  unfold deliveryEvents.
  destruct (ConsumerAutoAck consumeOptions); [reflexivity|].
  match goal with
  | |- context [acknowledge ?c ?w' ?d ?k] => destruct (acknowledge c w' d k)
  end; [destruct (handler w msg)|]; reflexivity.
Qed.

Lemma workerEvents_dispositions consumer handler consumeOptions msgs :
  ConsumerAutoAck consumeOptions = false ->
  forall w,
  dispositions (workerEvents consumer handler consumeOptions msgs w)
  = map dispositionFor
      (handlerCalls (workerEvents consumer handler consumeOptions msgs w)).
Proof.
  intros Hauto.
  induction msgs as [|msg rest IH]; intros w; simpl; [reflexivity|].
  rewrite dispositions_app, handlerCalls_app, map_app, IH.
  f_equal. unfold deliveryEvents. rewrite Hauto.
  match goal with
  | |- context [acknowledge ?c ?w' ?d ?k] => destruct (acknowledge c w' d k)
  end; [destruct (handler w msg)|]; reflexivity.
Qed.

Lemma filter_once (d : Delivery) (l : list Delivery) :
  NoDup l -> In d l -> filter (Delivery_eqb d) l = [d].
Proof.
  induction 1 as [|x l Hx Hnd IH]; intros Hin; [destruct Hin|].
  simpl. destruct (Delivery_eqb d x) eqn:E.
  - apply Delivery_eqb_eq in E. subst x. f_equal.
    clear IH Hin Hnd. induction l as [|y l IHl]; [reflexivity|].
    simpl. destruct (Delivery_eqb d y) eqn:E'.
    + apply Delivery_eqb_eq in E'. subst y. exfalso. apply Hx. left.
      reflexivity.
    + apply IHl. intros H. apply Hx. right. exact H.
  - destruct Hin as [->|Hin]; [|auto].
    assert (Delivery_eqb d d = true) by (apply Delivery_eqb_eq; reflexivity).
    congruence.
Qed.

Lemma filter_fst_map (B : Type) (p : Delivery -> bool)
    (l : list (Delivery * B)) :
  map fst (filter (fun x => p (fst x)) l) = filter p (map fst l).
Proof.
  induction l as [|x l IH]; [reflexivity|]. simpl.
  destruct (p (fst x)); simpl; rewrite IH; reflexivity.
Qed.

Lemma filter_dispositionFor (p : Delivery -> bool)
    (l : list (Delivery * bool)) :
  filter (fun x => p (fst x)) (map dispositionFor l)
  = map dispositionFor (filter (fun x => p (fst x)) l).
Proof.
  induction l as [|x l IH]; [reflexivity|]. simpl.
  destruct (p (fst x)); simpl; rewrite IH; reflexivity.
Qed.

(** ** Acknowledgement protocol of a worker *)

(** C1.  With auto-ack off, a worker calls the handler on each delivery of
    its stream and then makes exactly one disposition call for it:
    [Ack(false)] when the handler returned true, [Nack(false, true)] when
    it returned false.  The dispositions are, position by position, the ones
    owed to the handler calls; and when the deliveries of the stream are
    pairwise distinct, the calls that mention a given delivery are one
    handler call and the single matching disposition, never both an ack and
    a nack. *)
Theorem worker_disposes_each_delivery_once
    consumer handler consumeOptions msgs w :
  ConsumerAutoAck consumeOptions = false ->
  let t := added w (snd (workerLoop consumer handler consumeOptions msgs w)) in
  map fst (handlerCalls t) = msgs /\
  dispositions t = map dispositionFor (handlerCalls t) /\
  (NoDup msgs ->
   forall d, In d msgs ->
     exists ok,
       filter (fun x => Delivery_eqb d (fst x)) (handlerCalls t) = [(d, ok)] /\
       filter (fun x => Delivery_eqb d (fst x)) (dispositions t)
       = [(d, if ok then Ack false else Nack false true)]).
Proof.
  intros Hauto t. subst t. rewrite workerLoop_world, added_app.
  pose proof (workerEvents_handlerCalls consumer handler consumeOptions msgs w)
    as Hh.
  pose proof (workerEvents_dispositions consumer handler consumeOptions msgs
                Hauto w) as Hd.
  split; [exact Hh|]. split; [exact Hd|].
  intros Hnd d Hin. rewrite Hd.
  set (hc := handlerCalls _) in *.
  pose proof (filter_fst_map bool (Delivery_eqb d) hc) as Hf.
  rewrite Hh, (filter_once d msgs Hnd Hin) in Hf.
  rewrite filter_dispositionFor.
  destruct (filter (fun x => Delivery_eqb d (fst x)) hc)
    as [|[d' ok] [|y l]]; simpl in Hf; try discriminate.
  inversion Hf; subst d'. exists ok. split; reflexivity.
Qed.

(** C7.  With auto-ack on, a worker calls the handler once on each delivery
    of its stream, in order, and makes no disposition call at all; apart
    from the boolean the handler returned, its trace is the same for every
    handler and every transport. *)
Theorem worker_auto_ack_ignores_handler_result
    consumer handler consumeOptions msgs w :
  ConsumerAutoAck consumeOptions = true ->
  let t := added w (snd (workerLoop consumer handler consumeOptions msgs w)) in
  map fst (handlerCalls t) = msgs /\
  dispositions t = [] /\
  map eraseResult t = map (fun d => EvHandler d true) msgs ++ [closedLog].
Proof.
  intros Hauto t. subst t. rewrite workerLoop_world, added_app.
  split; [apply workerEvents_handlerCalls|].
  revert w. induction msgs as [|msg rest IH]; intros w; simpl.
  - split; reflexivity.
  - destruct (IH (w ++ deliveryEvents consumer handler consumeOptions msg w))
      as [IHd IHe].
    rewrite dispositions_app, map_app, IHd, IHe.
    unfold deliveryEvents. rewrite Hauto. split; reflexivity.
Qed.

(** ** Failed dispositions *)

Lemma failuresLogged_cons (e : Event) (t : list Event) :
  isFailedDisposition e = false ->
  failuresLogged t -> failuresLogged (e :: t).
Proof.
  intros He Ht [|x pre] d c err post Heq; simpl in Heq.
  - inversion Heq; subst e. discriminate He.
  - inversion Heq; subst. eapply Ht. reflexivity.
Qed.

Lemma failuresLogged_failed d c e (t : list Event) :
  failuresLogged t ->
  failuresLogged (EvDisposition d c (Some e) :: dispositionLog c e :: t).
Proof.
  intros Ht [|x [|y pre]] d' c' e' post Heq; simpl in Heq.
  - inversion Heq; subst. eexists. reflexivity.
  - inversion Heq as [[Hx Hy Hpost]]. destruct c; discriminate Hy.
  - inversion Heq; subst. eapply Ht. reflexivity.
Qed.

Lemma workerEvents_failuresLogged consumer handler consumeOptions msgs :
  forall w,
  failuresLogged (workerEvents consumer handler consumeOptions msgs w).
Proof.
  induction msgs as [|msg rest IH]; intros w; simpl.
  - apply failuresLogged_cons; [reflexivity|].
    intros [|x pre] d c e post Heq; discriminate Heq.
  - specialize (IH (w ++ deliveryEvents consumer handler consumeOptions msg w)).
    revert IH. generalize (workerEvents consumer handler consumeOptions rest
      (w ++ deliveryEvents consumer handler consumeOptions msg w)).
    unfold deliveryEvents. intros t Ht.
    destruct (ConsumerAutoAck consumeOptions); simpl.
    + apply failuresLogged_cons; [reflexivity | exact Ht].
    + apply failuresLogged_cons; [reflexivity|].
      match goal with
      | |- context [acknowledge ?c ?w' ?d ?k] =>
          destruct (acknowledge c w' d k) as [e|]
      end; simpl.
      * apply failuresLogged_failed. exact Ht.
      * apply failuresLogged_cons; [reflexivity | exact Ht].
Qed.

Lemma workerEvents_last consumer handler consumeOptions msgs : forall w,
  exists t0,
    workerEvents consumer handler consumeOptions msgs w = t0 ++ [closedLog].
Proof.
  induction msgs as [|msg rest IH]; intros w; simpl.
  - exists []. reflexivity.
  - destruct (IH (w ++ deliveryEvents consumer handler consumeOptions msg w))
      as [t0 Ht0].
    rewrite Ht0. eexists. rewrite app_assoc. reflexivity.
Qed.

(** ** The cycle, event by event *)

Lemma appends_ret {A : Type} P (a : A) : appends P (ret a).
Proof. intros w. exists []. rewrite app_nil_r. split; reflexivity. Qed.

Lemma appends_emit P e : P e = true -> appends P (emit e).
Proof.
  intros He w. exists [e]. split; [reflexivity|]. simpl. rewrite He.
  reflexivity.
Qed.

Lemma appends_bind {A B : Type} P (m : M A) (k : A -> M B) :
  appends P m -> (forall a, appends P (k a)) -> appends P (bind m k).
Proof.
  intros Hm Hk w. unfold bind. destruct (Hm w) as [t1 [H1 P1]].
  destruct (m w) as [a w1]. simpl in H1. subst w1.
  destruct (Hk a (w ++ t1)) as [t2 [H2 P2]].
  exists (t1 ++ t2). rewrite H2, app_assoc, forallb_app, P1, P2.
  split; reflexivity.
Qed.

Lemma appends_channelCall P consumer c :
  (forall r, P (EvChannel c r) = true) -> appends P (channelCall consumer c).
Proof.
  intros Hc w. eexists. split; [reflexivity|]. simpl. rewrite Hc.
  reflexivity.
Qed.

Lemma appends_orReturn P (m k : M (option error)) :
  appends P m -> appends P k -> appends P (orReturn m k).
Proof.
  intros Hm Hk. apply appends_bind; [exact Hm|].
  intros [e|]; [apply appends_ret | exact Hk].
Qed.

Lemma appends_bindRoutingKeys consumer queue routingKeys exchange opts :
  appends cycleEvent
    (bindRoutingKeys consumer queue routingKeys exchange opts).
Proof.
  induction routingKeys as [|k rest IH]; simpl.
  - apply appends_ret.
  - apply appends_orReturn; [|exact IH].
    apply appends_channelCall. reflexivity.
Qed.

Lemma appends_spawnWorkers opts n : appends cycleEvent (spawnWorkers opts n).
Proof.
  induction n as [|n IH]; simpl.
  - apply appends_ret.
  - apply appends_bind; [apply appends_emit; reflexivity | intros _; exact IH].
Qed.

Lemma appends_startGoroutines consumer handler queue routingKeys opts :
  appends cycleEvent
    (startGoroutines consumer handler queue routingKeys opts).
Proof.
  unfold startGoroutines, declareAndStart.
  repeat first
    [ apply appends_ret
    | apply appends_bindRoutingKeys
    | apply appends_spawnWorkers
    | apply appends_emit; reflexivity
    | apply appends_channelCall; reflexivity
    | apply appends_orReturn
    | apply appends_bind; [|intros ?]
    | match goal with
      | |- appends _ (match ?x with _ => _ end) => destruct x
      | |- appends _ (if ?x then _ else _) => destruct x
      end ].
Qed.

Lemma cycleEvent_sleeps (t : list Event) :
  forallb cycleEvent t = true -> sleeps t = [].
Proof.
  induction t as [|e t IH]; [reflexivity|]. simpl.
  intros H. apply andb_true_iff in H. destruct H as [He Ht].
  rewrite (IH Ht). destruct e; try reflexivity; discriminate He.
Qed.


Lemma spawnWorkers_world opts n : forall w,
  spawnWorkers opts n w
  = (tt, w ++ repeat (EvGo (WorkerLoop (ConsumerAutoAck opts))) n).
Proof.
  induction n as [|n IH]; intros w; simpl.
  - unfold ret. rewrite app_nil_r. reflexivity.
  - step. rewrite IH, <- app_assoc. reflexivity.
Qed.

Lemma bindRoutingKeys_success consumer queue routingKeys exchange opts :
  forall w,
  fst (bindRoutingKeys consumer queue routingKeys exchange opts w) = None ->
  snd (bindRoutingKeys consumer queue routingKeys exchange opts w)
  = w ++ map (fun k => ok (queueBindCall queue exchange opts k)) routingKeys.
Proof.
  induction routingKeys as [|k rest IH]; intros w; simpl.
  - intros _. unfold ret. simpl. rewrite app_nil_r. reflexivity.
  - step. fold (queueBindCall queue exchange opts k).
    destruct (call (channel (chManager consumer)) w
                (queueBindCall queue exchange opts k)) as [e|] eqn:E; simpl.
    + discriminate.
    + intros H. rewrite (IH _ H), <- app_assoc. reflexivity.
Qed.

(** A cycle that returns nil has made every call of its configuration,
    each of them successful, and nothing else. *)
Lemma startGoroutines_success consumer handler queue routingKeys opts w :
  fst (startGoroutines consumer handler queue routingKeys opts w) = None ->
  snd (startGoroutines consumer handler queue routingKeys opts w)
  = w ++ successEvents queue routingKeys opts.
Proof.
  unfold startGoroutines, declareAndStart, successEvents, bindingEvents.
  fold (queueDeclareCall queue opts) (qosCall opts) (consumeCall queue opts).
  step.
  destruct (call (channel (chManager consumer)) (w ++ [EvRLock])
              (queueDeclareCall queue opts)) as [e|]; simpl;
    [discriminate|].
  destruct (BindingExchange opts) as [exchange|]; simpl.
  - destruct (String.eqb (Name exchange) ""); step; [discriminate|].
    fold (exchangeDeclareCall exchange).
    destruct (call (channel (chManager consumer))
                ((w ++ [EvRLock]) ++
                 [EvChannel (queueDeclareCall queue opts) None])
                (exchangeDeclareCall exchange)) as [e|]; simpl;
      [discriminate|].
    match goal with
    | |- context [bindRoutingKeys ?c ?q ?ks ?ex ?o ?w'] =>
        pose proof (bindRoutingKeys_success c q ks ex o w') as Hb;
        destruct (bindRoutingKeys c q ks ex o w') as [[e|] w1]; simpl in *;
        [discriminate|]
    end.
    rewrite (Hb eq_refl).
    match goal with
    | |- context [call ?c ?w' (qosCall opts)] =>
        destruct (call c w' (qosCall opts)) as [e|]; simpl; [discriminate|]
    end.
    match goal with
    | |- context [call ?c ?w' (consumeCall queue opts)] =>
        destruct (call c w' (consumeCall queue opts)) as [e|]; simpl;
        [discriminate|]
    end.
    rewrite spawnWorkers_world. simpl. intros _. unfold ok.
    repeat (rewrite <- app_assoc; simpl). reflexivity.
  - match goal with
    | |- context [call ?c ?w' (qosCall opts)] =>
        destruct (call c w' (qosCall opts)) as [e|]; simpl; [discriminate|]
    end.
    match goal with
    | |- context [call ?c ?w' (consumeCall queue opts)] =>
        destruct (call c w' (consumeCall queue opts)) as [e|]; simpl;
        [discriminate|]
    end.
    rewrite spawnWorkers_world. simpl. intros _. unfold ok.
    repeat (rewrite <- app_assoc; simpl). reflexivity.
Qed.

(** The cycle consults the transport only through the channel methods. *)
Lemma bindRoutingKeys_same_call consumer consumer' queue routingKeys
    exchange opts :
  call (channel (chManager consumer')) = call (channel (chManager consumer)) ->
  forall w,
  bindRoutingKeys consumer' queue routingKeys exchange opts w
  = bindRoutingKeys consumer queue routingKeys exchange opts w.
Proof.
  intros Hc. induction routingKeys as [|k rest IH]; intros w; simpl;
    [reflexivity|].
  step. rewrite Hc.
  match goal with
  | |- context [call ?c ?w' ?k'] => destruct (call c w' k')
  end; [reflexivity | apply IH].
Qed.

Lemma startGoroutines_same_call consumer consumer' handler queue routingKeys
    opts w :
  call (channel (chManager consumer')) = call (channel (chManager consumer)) ->
  startGoroutines consumer' handler queue routingKeys opts w
  = startGoroutines consumer handler queue routingKeys opts w.
Proof.
  intros Hc. unfold startGoroutines, declareAndStart. step. rewrite Hc.
  destruct (BindingExchange opts) as [exchange|]; [|reflexivity].
  destruct (String.eqb (Name exchange) ""); step; [reflexivity|].
  destruct (call (channel (chManager consumer)) (w ++ [EvRLock]) _);
    [reflexivity|].
  simpl.
  destruct (call (channel (chManager consumer)) _ _); [reflexivity|].
  simpl.
  rewrite (bindRoutingKeys_same_call consumer consumer' queue routingKeys
             exchange opts Hc).
  reflexivity.
Qed.

(** C8.  A disposition that returns an error does not stop the worker: on
    every stream, whatever [Ack] and [Nack] return, the handler is called on
    each delivery in order and the worker ends only with the stream, on the
    log line of its closing; every failed disposition is directly followed
    by the log line that carries its error.  The worker returns nothing, and
    what [StartConsuming] returns to its caller does not depend on the
    results of the dispositions. *)
Theorem worker_survives_failed_dispositions
    consumer handler consumeOptions msgs w :
  let t := added w (snd (workerLoop consumer handler consumeOptions msgs w)) in
  map fst (handlerCalls t) = msgs /\
  (exists t0, t = t0 ++ [closedLog]) /\
  (forall pre d c e post,
      t = pre ++ EvDisposition d c (Some e) :: post ->
      exists post', post = dispositionLog c e :: post') /\
  (forall consumer' queue routingKeys optionFuncs w0,
      call (channel (chManager consumer'))
      = call (channel (chManager consumer)) ->
      StartConsuming consumer' handler queue routingKeys optionFuncs w0
      = StartConsuming consumer handler queue routingKeys optionFuncs w0).
Proof.
  intros t. subst t. rewrite workerLoop_world, added_app.
  split; [apply workerEvents_handlerCalls|].
  split; [apply workerEvents_last|].
  split; [apply workerEvents_failuresLogged|].
  intros consumer' queue routingKeys optionFuncs w0 Hc.
  unfold StartConsuming, orReturn, bind.
  rewrite (startGoroutines_same_call consumer consumer' handler queue
             routingKeys (resolveOptions optionFuncs) w0 Hc).
  reflexivity.
Qed.

(** ** Bindings *)

Lemma channelCalls_ok_map (f : string -> ChannelCall) (ks : list string) :
  channelCalls (map (fun k => ok (f k)) ks) = map f ks.
Proof.
  induction ks as [|k ks IH]; [reflexivity|]. simpl. rewrite IH. reflexivity.
Qed.

Lemma channelCalls_spawns g n : channelCalls (repeat (EvGo g) n) = [].
Proof. induction n as [|n IH]; [reflexivity | exact IH]. Qed.

Lemma filter_queueBindCalls queue exchange opts (ks : list string) :
  filter isQueueBind (map (queueBindCall queue exchange opts) ks)
  = map (queueBindCall queue exchange opts) ks.
Proof.
  induction ks as [|k ks IH]; [reflexivity|]. simpl. rewrite IH. reflexivity.
Qed.

(** C6.  With a binding descriptor of non-empty name, a cycle that succeeds
    declares the exchange and then binds the queue to that exchange once per
    routing key, in the order of the keys; it makes no other [QueueBind]
    call, before or after. *)
Theorem successful_cycle_binds_each_routing_key
    consumer handler queue routingKeys consumeOptions exchange w :
  BindingExchange consumeOptions = Some exchange ->
  Name exchange <> "" ->
  fst (startGoroutines consumer handler queue routingKeys consumeOptions w)
  = None ->
  let t := added w (snd (startGoroutines consumer handler queue routingKeys
                           consumeOptions w)) in
  let bindCall := fun routingKey =>
    QueueBind queue routingKey (Name exchange)
      (BindingNoWait consumeOptions)
      (tableToAMQPTable (BindingArgs consumeOptions)) in
  filter isQueueBind (channelCalls t) = map bindCall routingKeys /\
  exists pre post,
    t = pre
        ++ EvChannel (ExchangeDeclare (Name exchange) (Kind exchange)
                        (Durable exchange) (AutoDelete exchange)
                        (Internal exchange) (NoWait exchange)
                        (tableToAMQPTable (ExchangeArgs exchange))) None
        :: map (fun k => EvChannel (bindCall k) None) routingKeys
        ++ post /\
    filter isQueueBind (channelCalls pre) = [] /\
    filter isQueueBind (channelCalls post) = [].
Proof.
  intros Hex _ Hok t bindCall. subst t.
  rewrite (startGoroutines_success _ _ _ _ _ _ Hok), added_app.
  unfold successEvents, bindingEvents. rewrite Hex.
  change bindCall with (queueBindCall queue exchange consumeOptions).
  split.
  - simpl. rewrite channelCalls_app, filter_app.
    rewrite (channelCalls_ok_map (queueBindCall queue exchange consumeOptions)).
    rewrite filter_queueBindCalls. simpl.
    rewrite channelCalls_app, channelCalls_spawns. simpl.
    apply app_nil_r.
  - exists [EvRLock; ok (queueDeclareCall queue consumeOptions)].
    eexists. split; [|split].
    + simpl. unfold ok, exchangeDeclareCall. reflexivity.
    + reflexivity.
    + simpl. rewrite channelCalls_app, channelCalls_spawns. reflexivity.
Qed.

Lemma appends_unbound consumer handler queue routingKeys opts :
  BindingExchange opts = None ->
  appends unboundEvent
    (startGoroutines consumer handler queue routingKeys opts).
Proof.
  intros Hnil. unfold startGoroutines, declareAndStart. rewrite Hnil.
  repeat first
    [ apply appends_ret
    | apply appends_emit; reflexivity
    | apply appends_channelCall; reflexivity
    | apply appends_orReturn
    | apply appends_bind; [|intros ?] ].
  generalize (Z.to_nat (Concurrency opts)). intros n.
  induction n as [|n IH]; simpl.
  - apply appends_ret.
  - apply appends_bind; [apply appends_emit; reflexivity | intros _; exact IH].
Qed.

Lemma unboundEvent_calls (t : list Event) :
  forallb unboundEvent t = true ->
  filter (fun c => isExchangeDeclare c || isQueueBind c) (channelCalls t) = [].
Proof.
  induction t as [|e t IH]; [reflexivity|]. simpl.
  intros H. apply andb_true_iff in H. destruct H as [He Ht].
  unfold channelCalls in *. simpl. rewrite filter_app, (IH Ht), app_nil_r.
  destruct e; try reflexivity. simpl in *.
  destruct (isExchangeDeclare c || isQueueBind c); [discriminate He|].
  reflexivity.
Qed.

Lemma startGoroutines_nil_binding consumer handler queue opts keys keys' w :
  BindingExchange opts = None ->
  startGoroutines consumer handler queue keys opts w
  = startGoroutines consumer handler queue keys' opts w.
Proof.
  intros Hnil. unfold startGoroutines, declareAndStart. rewrite Hnil.
  reflexivity.
Qed.

Lemma retryLoop_nil_binding consumer handler queue opts keys keys' fuel :
  BindingExchange opts = None ->
  forall backoffTime w,
  retryLoop fuel backoffTime consumer handler queue keys opts w
  = retryLoop fuel backoffTime consumer handler queue keys' opts w.
Proof.
  intros Hnil. induction fuel as [|fuel IH]; intros b w; simpl;
    [reflexivity|].
  unfold bind. simpl.
  rewrite (startGoroutines_nil_binding consumer handler queue opts keys keys'
             _ Hnil).
  destruct (startGoroutines consumer handler queue keys' opts _)
    as [[e|] w1]; simpl; [|reflexivity].
  apply IH.
Qed.

Lemma resolveOptions_BindingExchange optionFuncs :
  BindingExchange (resolveOptions optionFuncs)
  = BindingExchange (applyOptionFuncs optionFuncs zeroConsumeOptions).
Proof.
  unfold resolveOptions.
  destruct (Concurrency (applyOptionFuncs optionFuncs zeroConsumeOptions)
            <? 1); reflexivity.
Qed.

(** C9.  When the options carry no binding descriptor, the routing keys
    play no part: [StartConsuming], and every later cycle of the
    supervising goroutine, behave the same for any two lists of keys, and no
    cycle makes an [ExchangeDeclare] or a [QueueBind] call. *)
Theorem nil_binding_ignores_routing_keys
    consumer handler queue optionFuncs routingKeys routingKeys' w :
  BindingExchange (applyOptionFuncs optionFuncs zeroConsumeOptions) = None ->
  StartConsuming consumer handler queue routingKeys optionFuncs w
  = StartConsuming consumer handler queue routingKeys' optionFuncs w /\
  filter (fun c => isExchangeDeclare c || isQueueBind c)
    (channelCalls
       (added w (snd (StartConsuming consumer handler queue routingKeys
                        optionFuncs w)))) = [] /\
  (forall w1,
     filter (fun c => isExchangeDeclare c || isQueueBind c)
       (channelCalls
          (added w1 (snd (startGoroutines consumer handler queue routingKeys
                            (resolveOptions optionFuncs) w1)))) = []) /\
  (forall fuel notifications w1,
     supervise fuel notifications consumer handler queue routingKeys
       (resolveOptions optionFuncs) w1
     = supervise fuel notifications consumer handler queue routingKeys'
         (resolveOptions optionFuncs) w1).
Proof.
  intros Hnil. rewrite <- resolveOptions_BindingExchange in Hnil.
  assert (Hcycle : forall w1,
     filter (fun c => isExchangeDeclare c || isQueueBind c)
       (channelCalls
          (added w1 (snd (startGoroutines consumer handler queue routingKeys
                            (resolveOptions optionFuncs) w1)))) = []).
  { intros w1.
    destruct (appends_unbound consumer handler queue routingKeys
                (resolveOptions optionFuncs) Hnil w1) as [t [Ht Pt]].
    rewrite Ht, added_app. apply unboundEvent_calls. exact Pt. }
  split; [|split; [|split]].
  - unfold StartConsuming, orReturn, bind.
    rewrite (startGoroutines_nil_binding consumer handler queue
               (resolveOptions optionFuncs) routingKeys routingKeys' w Hnil).
    reflexivity.
  - specialize (Hcycle w). revert Hcycle.
    unfold StartConsuming, orReturn, bind.
    destruct (appends_unbound consumer handler queue routingKeys
                (resolveOptions optionFuncs) Hnil w) as [t [Ht _]].
    destruct (startGoroutines consumer handler queue routingKeys
                (resolveOptions optionFuncs) w) as [[e|] w1];
      simpl in *; subst w1; [trivial|].
    unfold emit, ret. simpl. rewrite <- app_assoc, !added_app.
    intros Hc. rewrite channelCalls_app, filter_app, Hc. reflexivity.
  - exact Hcycle.
  - intros fuel notifications.
    induction notifications as [|err rest IH]; intros w1; simpl;
      [reflexivity|].
    unfold startGoroutinesWithRetries, bind. simpl.
    rewrite (retryLoop_nil_binding consumer handler queue
               (resolveOptions optionFuncs) routingKeys routingKeys' fuel Hnil).
    destruct (retryLoop fuel Second consumer handler queue routingKeys'
                (resolveOptions optionFuncs) _) as [[|] w2];
      [apply IH | reflexivity].
Qed.

(** ** The empty exchange name *)

Lemma startGoroutines_empty_name consumer handler queue routingKeys opts
    exchange w :
  BindingExchange opts = Some exchange ->
  Name exchange = "" ->
  startGoroutines consumer handler queue routingKeys opts w
  = let r := call (channel (chManager consumer)) (w ++ [EvRLock])
               (queueDeclareCall queue opts) in
    (match r with
     | Some e => Some e
     | None => Some configError
     end,
     w ++ [EvRLock; EvChannel (queueDeclareCall queue opts) r; EvRUnlock]).
Proof.
  intros Hex Hname. unfold startGoroutines, declareAndStart.
  fold (queueDeclareCall queue opts). rewrite Hex, Hname. step.
  destruct (call (channel (chManager consumer)) (w ++ [EvRLock])
              (queueDeclareCall queue opts)) as [e|]; simpl;
    repeat (rewrite <- app_assoc; simpl); reflexivity.
Qed.

(** C10.  With a binding descriptor of empty name, the cycle always calls
    [QueueDeclare] first and calls nothing else on the channel: when the
    declaration succeeds the cycle returns the configuration error, with the
    queue already declared; when it fails the cycle returns the
    declaration's error. *)
Theorem queue_declared_before_exchange_name_check
    consumer handler queue routingKeys consumeOptions exchange w :
  BindingExchange consumeOptions = Some exchange ->
  Name exchange = "" ->
  let declare :=
    QueueDeclare queue (QueueDurable consumeOptions)
      (QueueAutoDelete consumeOptions) (QueueExclusive consumeOptions)
      (QueueNoWait consumeOptions)
      (tableToAMQPTable (QueueArgs consumeOptions)) in
  let r := call (channel (chManager consumer)) (w ++ [EvRLock]) declare in
  let run :=
    startGoroutines consumer handler queue routingKeys consumeOptions w in
  added w (snd run) = [EvRLock; EvChannel declare r; EvRUnlock] /\
  (r = None -> fst run = Some configError) /\
  (forall e, r = Some e -> fst run = Some e) /\
  fst run <> None.
Proof.
  intros Hex Hname declare r run.
  assert (Hrun : run = (match r with
                        | Some e => Some e
                        | None => Some configError
                        end,
                        w ++ [EvRLock; EvChannel declare r; EvRUnlock])).
  { subst run r declare.
    apply (startGoroutines_empty_name consumer handler queue routingKeys
             consumeOptions exchange w Hex Hname). }
  rewrite Hrun. clearbody r. simpl. rewrite added_app.
  split; [reflexivity|]. split; [|split].
  - intros ->. reflexivity.
  - intros e ->. reflexivity.
  - destruct r; discriminate.
Qed.

(** C4 (amended).  When the options carry a binding descriptor of empty
    name, the first cycle fails and [StartConsuming] returns its error to
    the caller without starting the supervising goroutine.  The error is
    the configuration error when the queue declaration succeeds, and the
    declaration's own error when it does not. *)
Theorem empty_exchange_name_fails_first_start
    consumer handler queue routingKeys optionFuncs exchange w :
  BindingExchange (applyOptionFuncs optionFuncs zeroConsumeOptions)
  = Some exchange ->
  Name exchange = "" ->
  let options := resolveOptions optionFuncs in
  let r := call (channel (chManager consumer)) (w ++ [EvRLock])
             (queueDeclareCall queue options) in
  let e := match r with Some e => e | None => configError end in
  fst (startGoroutines consumer handler queue routingKeys options w) = Some e /\
  fst (StartConsuming consumer handler queue routingKeys optionFuncs w)
  = Some e /\
  (r = None ->
   fst (StartConsuming consumer handler queue routingKeys optionFuncs w)
   = Some configError) /\
  spawned (added w (snd (StartConsuming consumer handler queue routingKeys
                           optionFuncs w))) = [].
Proof.
  intros Hex Hname options r e.
  rewrite <- resolveOptions_BindingExchange in Hex. fold options in Hex.
  unfold StartConsuming, orReturn, bind. fold options.
  assert (Hrun :
    startGoroutines consumer handler queue routingKeys options w
    = (match r with Some e => Some e | None => Some configError end,
       w ++ [EvRLock; EvChannel (queueDeclareCall queue options) r;
             EvRUnlock])).
  { subst r.
    apply (startGoroutines_empty_name consumer handler queue routingKeys
             options exchange w Hex Hname). }
  rewrite Hrun. subst e. clearbody r.
  destruct r as [e|]; simpl; rewrite added_app;
    repeat split; try reflexivity; discriminate.
Qed.

(** ** Concurrency *)

Lemma spawned_bindingEvents queue routingKeys opts :
  spawned (bindingEvents queue routingKeys opts) = [].
Proof.
  unfold bindingEvents. destruct (BindingExchange opts) as [ex|];
    [|reflexivity].
  simpl. induction routingKeys as [|k ks IH]; [reflexivity | exact IH].
Qed.

Lemma spawned_repeat g n : spawned (repeat (EvGo g) n) = repeat g n.
Proof.
  induction n as [|n IH]; [reflexivity|]. simpl. unfold spawned in *. simpl.
  rewrite IH. reflexivity.
Qed.

Lemma spawned_successEvents queue routingKeys opts :
  spawned (successEvents queue routingKeys opts)
  = repeat (WorkerLoop (ConsumerAutoAck opts)) (Z.to_nat (Concurrency opts)).
Proof.
  unfold successEvents. rewrite !spawned_app, spawned_bindingEvents.
  rewrite spawned_repeat. simpl. apply app_nil_r.
Qed.

Lemma filter_isWorker_repeat b n :
  filter isWorker (repeat (WorkerLoop b) n) = repeat (WorkerLoop b) n.
Proof.
  induction n as [|n IH]; [reflexivity|]. simpl. rewrite IH. reflexivity.
Qed.

Lemma filter_isSupervisor_repeat b n :
  filter isSupervisor (repeat (WorkerLoop b) n) = [].
Proof. induction n as [|n IH]; [reflexivity | exact IH]. Qed.

(** What [StartConsuming] appends when its first cycle succeeds. *)
Lemma StartConsuming_success consumer handler queue routingKeys optionFuncs
    w :
  fst (StartConsuming consumer handler queue routingKeys optionFuncs w) = None
  ->
  snd (StartConsuming consumer handler queue routingKeys optionFuncs w)
  = w ++ successEvents queue routingKeys (resolveOptions optionFuncs)
      ++ [EvGo Supervisor].
Proof.
  unfold StartConsuming, orReturn, bind.
  pose proof (startGoroutines_success consumer handler queue routingKeys
                (resolveOptions optionFuncs) w) as Hs.
  destruct (startGoroutines consumer handler queue routingKeys
              (resolveOptions optionFuncs) w) as [[e|] w1]; simpl in *;
    [discriminate|].
  intros _. rewrite (Hs eq_refl), <- app_assoc. reflexivity.
Qed.

(** C5.  [StartConsuming] runs its cycle with the configured concurrency
    when that is at least one and with the default one otherwise; given that
    the default is at least one, the concurrency in force is at least one,
    and a call that succeeds spawns exactly that many worker loops. *)
Theorem StartConsuming_spawns_concurrency_workers
    consumer handler queue routingKeys optionFuncs w :
  1 <= Concurrency getDefaultConsumeOptions ->
  let configured :=
    Concurrency (applyOptionFuncs optionFuncs zeroConsumeOptions) in
  let n := if configured <? 1 then Concurrency getDefaultConsumeOptions
           else configured in
  Concurrency (resolveOptions optionFuncs) = n /\
  1 <= n /\
  (1 <= configured -> n = configured) /\
  (configured < 1 -> n = Concurrency getDefaultConsumeOptions) /\
  (fst (StartConsuming consumer handler queue routingKeys optionFuncs w) = None
   ->
   let t := added w (snd (StartConsuming consumer handler queue routingKeys
                            optionFuncs w)) in
   Z.of_nat (List.length (filter isWorker (spawned t))) = n).
Proof.
  intros Hdef configured n.
  assert (Hn : Concurrency (resolveOptions optionFuncs) = n).
  { unfold resolveOptions. fold configured. subst n.
    destruct (configured <? 1); reflexivity. }
  assert (Hpos : 1 <= n).
  { subst n. destruct (configured <? 1) eqn:E; [exact Hdef|].
    apply Z.ltb_ge in E. exact E. }
  split; [exact Hn|]. split; [exact Hpos|]. split; [|split].
  - intros H. subst n. apply Z.ltb_ge in H. rewrite H. reflexivity.
  - intros H. subst n. apply Z.ltb_lt in H. rewrite H. reflexivity.
  - intros Hok t. subst t.
    rewrite (StartConsuming_success _ _ _ _ _ _ Hok), added_app.
    rewrite spawned_app, spawned_successEvents, filter_app.
    rewrite filter_isWorker_repeat. simpl.
    rewrite app_nil_r, repeat_length, Hn. lia.
Qed.

(** ** The recovery loop, attempt by attempt *)

Lemma wrap64_double (x : Z) : wrap64 (wrap64 x * 2) = wrap64 (x * 2).
Proof.
  unfold wrap64.
  pose proof (Z.div_mod (x + 2 ^ 63) (2 ^ 64) ltac:(lia)) as Hx.
  set (q := (x + 2 ^ 63) / 2 ^ 64) in *.
  set (r := (x + 2 ^ 63) mod 2 ^ 64) in *.
  replace (x * 2 + 2 ^ 63)
    with ((r - 2 ^ 63) * 2 + 2 ^ 63 + (2 * q) * 2 ^ 64) by lia.
  rewrite Z_mod_plus_full. reflexivity.
Qed.

Lemma backoffAt_shift (b0 : Z) (j : nat) :
  backoffAt b0 (S j) = backoffAt (wrap64 (b0 * 2)) j.
Proof.
  unfold backoffAt. induction j as [|j IH]; [reflexivity|].
  simpl in *. rewrite IH. reflexivity.
Qed.

Lemma backoffAt_Second (j : nat) :
  backoffAt Second j = wrap64 (Second * 2 ^ Z.of_nat j).
Proof.
  induction j as [|j IH]; [reflexivity|].
  unfold backoffAt in *. simpl Nat.iter. rewrite IH, wrap64_double.
  f_equal. rewrite Nat2Z.inj_succ, Z.pow_succ_r by lia. lia.
Qed.

Lemma wrap64_in_range (z : Z) : - 2 ^ 63 <= z < 2 ^ 63 -> wrap64 z = z.
Proof.
  intros Hz. unfold wrap64. rewrite Z.mod_small; lia.
Qed.

Lemma retryLoop_step fuel backoffTime consumer handler queue routingKeys
    opts w :
  retryLoop (S fuel) backoffTime consumer handler queue routingKeys opts w
  = match attempt backoffTime consumer handler queue routingKeys opts w with
    | (Some e, w') =>
        retryLoop fuel (wrap64 (backoffTime * 2)) consumer handler queue
          routingKeys opts (w' ++ [failureLog e])
    | (None, w') => (Exited, w')
    end.
Proof.
  unfold attempt. simpl. step. rewrite <- app_assoc. simpl.
  destruct (startGoroutines consumer handler queue routingKeys opts _)
    as [[e|] w']; reflexivity.
Qed.

Lemma attempt_world backoffTime consumer handler queue routingKeys opts w :
  exists t,
    snd (attempt backoffTime consumer handler queue routingKeys opts w)
    = w ++ waitingLog backoffTime :: EvSleep backoffTime :: t /\
    forallb cycleEvent t = true.
Proof.
  unfold attempt.
  destruct (appends_startGoroutines consumer handler queue routingKeys opts
              (w ++ [waitingLog backoffTime; EvSleep backoffTime]))
    as [t [Ht Pt]].
  exists t. rewrite Ht, <- app_assoc. split; [reflexivity | exact Pt].
Qed.

Lemma iteration_backoff k b0 consumer handler queue routingKeys opts w0 :
  fst (iteration k b0 consumer handler queue routingKeys opts w0)
  = backoffAt b0 k.
Proof.
  induction k as [|k IH]; [reflexivity|]. simpl.
  destruct (iteration k b0 consumer handler queue routingKeys opts w0)
    as [b w]. simpl in IH. subst b.
  destruct (attempt _ consumer handler queue routingKeys opts w).
  reflexivity.
Qed.

Lemma iteration_world k b0 consumer handler queue routingKeys opts w0 :
  exists t,
    snd (iteration k b0 consumer handler queue routingKeys opts w0) = w0 ++ t
    /\ sleeps t = map (backoffAt b0) (seq 0 k).
Proof.
  induction k as [|k [t [Ht St]]].
  - exists []. simpl. rewrite app_nil_r. split; reflexivity.
  - simpl iteration.
    pose proof (iteration_backoff k b0 consumer handler queue routingKeys
                  opts w0) as Hb.
    destruct (iteration k b0 consumer handler queue routingKeys opts w0)
      as [b w]. simpl in Ht, Hb. subst b w.
    destruct (attempt_world (backoffAt b0 k) consumer handler queue
                routingKeys opts (w0 ++ t)) as [c [Hc Pc]].
    destruct (attempt (backoffAt b0 k) consumer handler queue routingKeys
                opts (w0 ++ t)) as [err w']. simpl in Hc. subst w'.
    exists (t ++ waitingLog (backoffAt b0 k) :: EvSleep (backoffAt b0 k) :: c
              ++ match err with Some e => [failureLog e] | None => [] end).
    split.
    + simpl. destruct err; rewrite <- ?app_assoc; simpl;
        rewrite <- ?app_assoc, ?app_nil_r; reflexivity.
    + rewrite seq_S, map_app, sleeps_app, St. simpl. f_equal.
      rewrite sleeps_app, (cycleEvent_sleeps c Pc).
      destruct err; reflexivity.
Qed.

(** While the passes fail, the loop goes on. *)
Lemma retryLoop_failures b0 consumer handler queue routingKeys opts w0 :
  forall k fuel,
  (forall j, (j < k)%nat ->
     fst (attemptAt j b0 consumer handler queue routingKeys opts w0) <> None)
  ->
  retryLoop (k + fuel) b0 consumer handler queue routingKeys opts w0
  = retryLoop fuel
      (fst (iteration k b0 consumer handler queue routingKeys opts w0))
      consumer handler queue routingKeys opts
      (snd (iteration k b0 consumer handler queue routingKeys opts w0)).
Proof.
  induction k as [|k IH]; intros fuel Hfail; [reflexivity|].
  replace (S k + fuel)%nat with (k + S fuel)%nat by lia.
  rewrite IH by (intros j Hj; apply Hfail; lia).
  rewrite retryLoop_step.
  specialize (Hfail k (Nat.lt_succ_diag_r k)). unfold attemptAt in Hfail.
  simpl iteration.
  destruct (iteration k b0 consumer handler queue routingKeys opts w0)
    as [b w]. simpl in *.
  destruct (attempt b consumer handler queue routingKeys opts w)
    as [[e|] w']; simpl in *; [reflexivity | congruence].
Qed.

(** Whatever happens, the delays slept are the successive doublings. *)
Lemma retryLoop_sleeps consumer handler queue routingKeys opts :
  forall fuel b w,
  exists m t,
    snd (retryLoop fuel b consumer handler queue routingKeys opts w) = w ++ t
    /\ sleeps t = map (backoffAt b) (seq 0 m).
Proof.
  induction fuel as [|fuel IH]; intros b w.
  - exists O, []. simpl. unfold ret. simpl. rewrite app_nil_r.
    split; reflexivity.
  - rewrite retryLoop_step.
    destruct (attempt_world b consumer handler queue routingKeys opts w)
      as [c [Hc Pc]].
    destruct (attempt b consumer handler queue routingKeys opts w)
      as [[e|] w']; simpl in Hc; subst w'.
    + destruct (IH (wrap64 (b * 2))
                  ((w ++ waitingLog b :: EvSleep b :: c) ++ [failureLog e]))
        as [m [t [Ht St]]].
      exists (S m), (waitingLog b :: EvSleep b :: c ++ failureLog e :: t).
      split.
      * rewrite Ht. rewrite <- !app_assoc. simpl. rewrite <- ?app_assoc.
        reflexivity.
      * simpl. f_equal. rewrite sleeps_app, (cycleEvent_sleeps c Pc). simpl.
        rewrite St, <- seq_shift, map_map.
        apply map_ext. intros j. symmetry. apply backoffAt_shift.
    + exists 1%nat, (waitingLog b :: EvSleep b :: c). split; [reflexivity|].
      simpl. f_equal. apply cycleEvent_sleeps. exact Pc.
Qed.

(** ** Which errors reach the caller *)


(** ** Backoff *)

Lemma backoff_without_overflow (k : nat) :
  (1 <= k <= 34)%nat ->
  wrap64 (Second * 2 ^ Z.of_nat (k - 1)) = Second * 2 ^ Z.of_nat (k - 1).
Proof.
  intros Hk. apply wrap64_in_range.
  assert (Hp : 0 < 2 ^ Z.of_nat (k - 1) <= 2 ^ 33).
  { split; [apply Z.pow_pos_nonneg; lia|].
    apply Z.pow_le_mono_r; lia. }
  change (2 ^ 33) with 8589934592 in Hp.
  change (2 ^ 63) with 9223372036854775808.
  unfold Second. lia.
Qed.

(** C3 (amended).  In every run of the recovery loop the delay slept before
    attempt [k] is one second doubled [k-1] times in 64-bit arithmetic,
    which is one second times [2^(k-1)] for [k] up to 34.  There is no bound
    on the attempts: as long as the cycles fail the loop goes on.  The loop
    exits at the first attempt whose cycle succeeds, and not before. *)
Theorem retry_backoff_doubles_until_first_success
    fuel consumer handler queue routingKeys consumeOptions w :
  let run := startGoroutinesWithRetries fuel consumer handler queue
               routingKeys consumeOptions w in
  let t := added w (snd run) in
  let cycle := fun j =>
    attemptAt j Second consumer handler queue routingKeys consumeOptions w in
  sleeps t
  = map (fun j => wrap64 (Second * 2 ^ Z.of_nat j))
      (seq 0 (List.length (sleeps t))) /\
  (forall k, (1 <= k <= 34)%nat ->
     wrap64 (Second * 2 ^ Z.of_nat (k - 1)) = Second * 2 ^ Z.of_nat (k - 1)) /\
  ((forall j, (j < fuel)%nat -> fst (cycle j) <> None) ->
     fst run = StillRetrying /\ List.length (sleeps t) = fuel) /\
  (forall k, (1 <= k <= fuel)%nat ->
     (forall j, (j < k - 1)%nat -> fst (cycle j) <> None) ->
     fst (cycle (k - 1)%nat) = None ->
     run = (Exited, snd (cycle (k - 1)%nat)) /\ List.length (sleeps t) = k).
Proof.
  intros run t cycle. subst run t cycle. unfold startGoroutinesWithRetries.
  split; [|split; [exact backoff_without_overflow | split]].
  - destruct (retryLoop_sleeps consumer handler queue routingKeys
                consumeOptions fuel Second w) as [m [t [Ht St]]].
    rewrite Ht, added_app, St, length_map, length_seq.
    apply map_ext. exact backoffAt_Second.
  - intros Hfail.
    pose proof (retryLoop_failures Second consumer handler queue routingKeys
                  consumeOptions w fuel 0 Hfail) as Hloop.
    rewrite Nat.add_0_r in Hloop. rewrite Hloop. simpl.
    split; [reflexivity|].
    destruct (iteration_world fuel Second consumer handler queue routingKeys
                consumeOptions w) as [t [Ht St]].
    rewrite Ht, added_app, St, length_map, length_seq. reflexivity.
  - intros k Hk Hfail Hok.
    replace fuel with ((k - 1) + S (fuel - k))%nat at 1 2 by lia.
    rewrite (retryLoop_failures Second consumer handler queue routingKeys
               consumeOptions w (k - 1) (S (fuel - k)) Hfail).
    rewrite retryLoop_step. unfold attemptAt in *.
    destruct (iteration_world (k - 1) Second consumer handler queue
                routingKeys consumeOptions w) as [t [Ht St]].
    set (s := iteration (k - 1) Second consumer handler queue routingKeys
                consumeOptions w) in *.
    destruct (attempt_world (fst s) consumer handler queue routingKeys
                consumeOptions (snd s)) as [c [Hc Pc]].
    destruct (attempt (fst s) consumer handler queue routingKeys
                consumeOptions (snd s)) as [[e|] w']; simpl in *;
      [congruence|].
    split; [reflexivity|].
    subst w'. rewrite Ht, <- app_assoc, added_app, sleeps_app, St.
    simpl. rewrite (cycleEvent_sleeps c Pc).
    rewrite length_app, length_map, length_seq. simpl. lia.
Qed.

(** ** Every way a cycle can end *)

Lemma bindRoutingKeys_trace consumer queue exchange opts :
  forall routingKeys w,
  let bindCall := queueBindCall queue exchange opts in
  bindRoutingKeys consumer queue routingKeys exchange opts w
  = (None, w ++ map ok (map bindCall routingKeys))
  \/
  exists done k rest e,
    routingKeys = done ++ k :: rest /\
    bindRoutingKeys consumer queue routingKeys exchange opts w
    = (Some e, w ++ map ok (map bindCall done)
                 ++ [EvChannel (bindCall k) (Some e)]).
Proof.
  induction routingKeys as [|k ks IH]; intros w bindCall; simpl.
  - left. unfold ret. rewrite app_nil_r. reflexivity.
  - step. fold (queueBindCall queue exchange opts k). fold bindCall.
    destruct (call (channel (chManager consumer)) w (bindCall k))
      as [e|] eqn:E; simpl.
    + right. exists [], k, ks, e. split; reflexivity.
    + destruct (IH (w ++ [EvChannel (bindCall k) None]))
        as [Hall | [done [k' [rest [e [Hks Hrun]]]]]].
      * left. rewrite Hall, <- app_assoc. reflexivity.
      * right. exists (k :: done), k', rest, e.
        split; [rewrite Hks; reflexivity|].
        rewrite Hrun, <- app_assoc. reflexivity.
Qed.

Ltac destruct_call :=
  match goal with
  | |- context [call ?c ?w ?k] =>
      let e := fresh "e" in destruct (call c w k) as [e|]; simpl
  end.

Ltac tidy := repeat (rewrite <- app_assoc; simpl).

Ltac same_trace := simpl; rewrite ?map_app; tidy; reflexivity.

(** A cycle ends in exactly one of the three ways of [cycleOutcome]. *)
Lemma startGoroutines_outcome consumer handler queue routingKeys opts w :
  exists t,
    snd (startGoroutines consumer handler queue routingKeys opts w) = w ++ t
    /\ cycleOutcome queue routingKeys opts
         (fst (startGoroutines consumer handler queue routingKeys opts w)) t.
Proof.
  unfold startGoroutines, declareAndStart, cycleOutcome, plannedCalls,
    startEvents.
  fold (queueDeclareCall queue opts) (qosCall opts) (consumeCall queue opts).
  step. destruct_call.
  { eexists. split; [tidy; reflexivity|]. right. left.
    exists [], (queueDeclareCall queue opts). do 2 eexists.
    split; [reflexivity|]. split; [reflexivity | same_trace]. }
  destruct (BindingExchange opts) as [exchange|]; simpl.
  - destruct (String.eqb (Name exchange) "") eqn:Hname; step.
    { eexists. split; [tidy; reflexivity|]. right. right.
      exists exchange. apply String.eqb_eq in Hname.
      repeat split; [exact Hname]. }
    fold (exchangeDeclareCall exchange). destruct_call.
    { eexists. split; [tidy; reflexivity|]. right. left.
      exists [queueDeclareCall queue opts], (exchangeDeclareCall exchange).
      do 2 eexists. split; [reflexivity|]. split; [reflexivity | same_trace]. }
    match goal with
    | |- context [bindRoutingKeys ?c ?q ?ks ?ex ?o ?w'] =>
        destruct (bindRoutingKeys_trace c q ex o ks w')
          as [Hall | [done [k [rest [e [Hks Hrun]]]]]]
    end.
    + rewrite Hall. simpl. destruct_call.
      { eexists. split; [tidy; reflexivity|]. right. left.
        exists (queueDeclareCall queue opts :: exchangeDeclareCall exchange
                :: map (queueBindCall queue exchange opts) routingKeys),
          (qosCall opts), [consumeCall queue opts], e.
        split; [same_trace|]. split; [reflexivity | same_trace]. }
      destruct_call.
      { eexists. split; [tidy; reflexivity|]. right. left.
        exists (queueDeclareCall queue opts :: exchangeDeclareCall exchange
                :: map (queueBindCall queue exchange opts) routingKeys
                ++ [qosCall opts]),
          (consumeCall queue opts), [], e.
        split; [same_trace|]. split; [reflexivity | same_trace]. }
      rewrite spawnWorkers_world. simpl.
      eexists. split; [tidy; reflexivity|]. left.
      split; [reflexivity | same_trace].
    + rewrite Hrun. simpl.
      eexists. split; [tidy; reflexivity|]. right. left.
      exists (queueDeclareCall queue opts :: exchangeDeclareCall exchange
              :: map (queueBindCall queue exchange opts) done),
        (queueBindCall queue exchange opts k),
        (map (queueBindCall queue exchange opts) rest
         ++ [qosCall opts; consumeCall queue opts]), e.
      split; [rewrite Hks, map_app; tidy; reflexivity|].
      split; [reflexivity | same_trace].
  - destruct_call.
    { eexists. split; [tidy; reflexivity|]. right. left.
      exists [queueDeclareCall queue opts], (qosCall opts).
      do 2 eexists. split; [reflexivity|]. split; [reflexivity | same_trace]. }
    destruct_call.
    { eexists. split; [tidy; reflexivity|]. right. left.
      exists [queueDeclareCall queue opts; qosCall opts],
        (consumeCall queue opts).
      do 2 eexists. split; [reflexivity|]. split; [reflexivity | same_trace]. }
    rewrite spawnWorkers_world. simpl.
    eexists. split; [tidy; reflexivity|]. left.
    split; [reflexivity | same_trace].
Qed.

Lemma channelCalls_map_ok (l : list ChannelCall) :
  channelCalls (map ok l) = l.
Proof.
  induction l as [|c l IH]; [reflexivity|]. simpl. rewrite IH. reflexivity.
Qed.

Lemma channelResults_map_ok (l : list ChannelCall) :
  channelResults (map ok l) = repeat None (List.length l).
Proof.
  induction l as [|c l IH]; [reflexivity|]. simpl. rewrite IH. reflexivity.
Qed.

Lemma channelResults_app (a b : list Event) :
  channelResults (a ++ b) = channelResults a ++ channelResults b.
Proof. apply flat_map_app. Qed.

Lemma spawned_map_ok (l : list ChannelCall) : spawned (map ok l) = [].
Proof. induction l as [|c l IH]; [reflexivity | exact IH]. Qed.

Lemma unlocked_map_ok (l : list ChannelCall) :
  forallb (fun e => negb (isLockEvent e)) (map ok l) = true.
Proof. induction l as [|c l IH]; [reflexivity | exact IH]. Qed.

Lemma unlocked_startEvents opts :
  forallb (fun e => negb (isLockEvent e)) (startEvents opts) = true.
Proof.
  unfold startEvents. rewrite forallb_app. simpl.
  rewrite andb_true_r.
  induction (Z.to_nat (Concurrency opts)) as [|n IH];
    [reflexivity | exact IH].
Qed.

Lemma channelCalls_startEvents opts : channelCalls (startEvents opts) = [].
Proof.
  unfold startEvents. rewrite channelCalls_app, channelCalls_spawns.
  reflexivity.
Qed.

Lemma channelResults_startEvents opts : channelResults (startEvents opts) = [].
Proof.
  unfold startEvents. rewrite channelResults_app. simpl.
  rewrite app_nil_r.
  induction (Z.to_nat (Concurrency opts)) as [|n IH];
    [reflexivity | exact IH].
Qed.

Lemma spawned_startEvents opts :
  spawned (startEvents opts)
  = repeat (WorkerLoop (ConsumerAutoAck opts)) (Z.to_nat (Concurrency opts)).
Proof.
  unfold startEvents. rewrite spawned_app, spawned_repeat. simpl.
  apply app_nil_r.
Qed.

(** X1.  Whatever the transport answers, a cycle takes the read lock first,
    releases it last, and neither takes nor releases it in between: the lock
    is released on every error path as well. *)
Theorem cycle_holds_read_lock_throughout
    consumer handler queue routingKeys consumeOptions w :
  exists body,
    added w (snd (startGoroutines consumer handler queue routingKeys
                    consumeOptions w))
    = EvRLock :: body ++ [EvRUnlock] /\
    forallb (fun e => negb (isLockEvent e)) body = true.
Proof.
  destruct (startGoroutines_outcome consumer handler queue routingKeys
              consumeOptions w) as [t [Ht Ho]].
  unfold cycleOutcome in Ho. cbv zeta in Ho.
  rewrite Ht, added_app.
  destruct Ho as [[_ Hs] | [[done [c [rest [e [_ [_ Hf]]]]]]
                           | [ex [_ [_ [_ Hc]]]]]]; subst t.
  - exists (map ok (plannedCalls queue routingKeys consumeOptions)
            ++ startEvents consumeOptions).
    split; [rewrite <- app_assoc; reflexivity|].
    rewrite forallb_app, unlocked_map_ok, unlocked_startEvents.
    reflexivity.
  - exists (map ok done ++ [EvChannel c (Some e)]).
    split; [rewrite <- app_assoc; reflexivity|].
    rewrite forallb_app, unlocked_map_ok. reflexivity.
  - exists [ok (queueDeclareCall queue consumeOptions)].
    split; reflexivity.
Qed.

(** X2.  A cycle stops at the first channel method that fails: when it
    returns an error it has spawned no goroutine, and either its last channel
    call is the only one that failed and the error returned is that call's,
    or every call made has succeeded, the exchange name is empty and the
    error is the configuration error. *)
Theorem failed_cycle_stops_at_first_error
    consumer handler queue routingKeys consumeOptions w e :
  fst (startGoroutines consumer handler queue routingKeys consumeOptions w)
  = Some e ->
  let t := added w (snd (startGoroutines consumer handler queue routingKeys
                           consumeOptions w)) in
  spawned t = [] /\
  ((exists n, channelResults t = repeat None n ++ [Some e]) \/
   (e = configError /\ channelResults t = [None] /\
    exists exchange,
      BindingExchange consumeOptions = Some exchange /\ Name exchange = "")).
Proof.
  intros Hfail t. subst t.
  destruct (startGoroutines_outcome consumer handler queue routingKeys
              consumeOptions w) as [t [Ht Ho]].
  unfold cycleOutcome in Ho. cbv zeta in Ho.
  rewrite Ht, added_app. rewrite Hfail in Ho.
  destruct Ho as [[Hr Hs] | [[done [c [rest [e' [_ [He Hf]]]]]]
                            | [ex [Hex [Hname [He Hc]]]]]]; subst t.
  - discriminate Hr.
  - inversion He; subst e'. split.
    + change (spawned (map ok done ++ [EvChannel c (Some e); EvRUnlock])
              = []).
      rewrite spawned_app, spawned_map_ok. reflexivity.
    + left. exists (List.length done).
      change (channelResults
                (map ok done ++ [EvChannel c (Some e); EvRUnlock])
              = repeat None (List.length done) ++ [Some e]).
      rewrite channelResults_app, channelResults_map_ok. reflexivity.
  - inversion He; subst e. split; [reflexivity|]. right.
    split; [reflexivity|]. split; [reflexivity|].
    exists ex. split; assumption.
Qed.

(** X3.  With a binding descriptor, the [QueueBind] calls of any cycle,
    failed or not, are the bindings of an initial segment of the routing
    keys, in order and without repetition; of all the keys when the cycle
    succeeds. *)
Theorem cycle_binds_initial_routing_keys
    consumer handler queue routingKeys consumeOptions exchange w :
  BindingExchange consumeOptions = Some exchange ->
  let run := startGoroutines consumer handler queue routingKeys
               consumeOptions w in
  exists bound unbound,
    routingKeys = bound ++ unbound /\
    filter isQueueBind (channelCalls (added w (snd run)))
    = map (fun k => QueueBind queue k (Name exchange)
                      (BindingNoWait consumeOptions)
                      (tableToAMQPTable (BindingArgs consumeOptions))) bound /\
    (fst run = None -> unbound = []).
Proof.
  intros Hex run. subst run.
  change (fun k => QueueBind queue k (Name exchange)
                     (BindingNoWait consumeOptions)
                     (tableToAMQPTable (BindingArgs consumeOptions)))
    with (queueBindCall queue exchange consumeOptions).
  destruct (startGoroutines_outcome consumer handler queue routingKeys
              consumeOptions w) as [t [Ht Ho]].
  unfold cycleOutcome in Ho. cbv zeta in Ho.
  rewrite Ht, added_app.
  assert (Hplan : filter isQueueBind
                    (plannedCalls queue routingKeys consumeOptions)
                  = map (queueBindCall queue exchange consumeOptions)
                      routingKeys).
  { unfold plannedCalls. rewrite Hex. simpl.
    rewrite filter_app, filter_queueBindCalls. simpl. apply app_nil_r. }
  destruct Ho as [[Hr Hs] | [[done [c [rest [e [Hp [Hr Hf]]]]]]
                             | [ex [_ [_ [Hr Hc]]]]]]; subst t.
  - exists routingKeys, []. split; [symmetry; apply app_nil_r|].
    split; [|reflexivity].
    change (filter isQueueBind
              (channelCalls
                 (map ok (plannedCalls queue routingKeys consumeOptions)
                  ++ startEvents consumeOptions ++ [EvRUnlock]))
            = map (queueBindCall queue exchange consumeOptions) routingKeys).
    rewrite !channelCalls_app, channelCalls_map_ok, channelCalls_startEvents.
    simpl. rewrite app_nil_r. exact Hplan.
  - rewrite Hp in Hplan.
    replace (done ++ c :: rest) with ((done ++ [c]) ++ rest) in Hplan
      by (rewrite <- app_assoc; reflexivity).
    rewrite filter_app in Hplan. symmetry in Hplan.
    apply map_eq_app in Hplan.
    destruct Hplan as [bound [unbound [Hkeys [Hb _]]]].
    exists bound, unbound. split; [exact Hkeys|]. split.
    + change (filter isQueueBind
                (channelCalls
                   (map ok done ++ [EvChannel c (Some e); EvRUnlock]))
              = map (queueBindCall queue exchange consumeOptions) bound).
      rewrite channelCalls_app, channelCalls_map_ok. simpl.
      rewrite Hb. reflexivity.
    + rewrite Hr. discriminate.
  - exists [], routingKeys. split; [reflexivity|]. split; [reflexivity|].
    rewrite Hr. discriminate.
Qed.

(** X4.  A cycle that succeeds has called, in this order and with no
    failure, [QueueDeclare], then [ExchangeDeclare] and the bindings when a
    descriptor is configured, then [Qos] with a prefetch size of zero, then
    [Consume]; only after that has it spawned its workers, each with the
    auto-ack flag it passed to [Consume]. *)
Theorem successful_cycle_call_order
    consumer handler queue routingKeys consumeOptions w :
  fst (startGoroutines consumer handler queue routingKeys consumeOptions w)
  = None ->
  let t := added w (snd (startGoroutines consumer handler queue routingKeys
                           consumeOptions w)) in
  let calls :=
    queueDeclareCall queue consumeOptions ::
    match BindingExchange consumeOptions with
    | Some exchange =>
        exchangeDeclareCall exchange ::
        map (queueBindCall queue exchange consumeOptions) routingKeys
    | None => []
    end
    ++ [Qos (QOSPrefetch consumeOptions) 0 (QOSGlobal consumeOptions);
        Consume queue (ConsumerName consumeOptions)
          (ConsumerAutoAck consumeOptions)
          (ConsumerExclusive consumeOptions)
          (ConsumerNoLocal consumeOptions) (ConsumerNoWait consumeOptions)
          (tableToAMQPTable (ConsumerArgs consumeOptions))] in
  channelCalls t = calls /\
  channelResults t = repeat None (List.length calls) /\
  spawned t = repeat (WorkerLoop (ConsumerAutoAck consumeOptions))
                (Z.to_nat (Concurrency consumeOptions)) /\
  exists rest,
    t = EvRLock :: map ok calls ++ rest /\ channelCalls rest = [].
Proof.
  intros Hok t calls. subst t.
  change calls with (plannedCalls queue routingKeys consumeOptions).
  clear calls.
  destruct (startGoroutines_outcome consumer handler queue routingKeys
              consumeOptions w) as [t [Ht Ho]].
  unfold cycleOutcome in Ho. cbv zeta in Ho.
  rewrite Ht, added_app. rewrite Hok in Ho.
  destruct Ho as [[_ Hs] | [[done [c [rest [e [_ [Hr _]]]]]]
                            | [ex [_ [_ [Hr _]]]]]]; try discriminate Hr.
  subst t. set (plan := plannedCalls queue routingKeys consumeOptions).
  change (EvRLock :: map ok plan ++ startEvents consumeOptions ++ [EvRUnlock])
    with ([EvRLock] ++ map ok plan ++ startEvents consumeOptions
          ++ [EvRUnlock]).
  rewrite !channelCalls_app, !channelResults_app, !spawned_app.
  rewrite channelCalls_map_ok, channelResults_map_ok, spawned_map_ok.
  rewrite channelCalls_startEvents, channelResults_startEvents,
    spawned_startEvents.
  simpl. rewrite !app_nil_r.
  split; [reflexivity|]. split; [reflexivity|]. split; [reflexivity|].
  exists (startEvents consumeOptions ++ [EvRUnlock]).
  split; [reflexivity|].
  rewrite channelCalls_app, channelCalls_startEvents. reflexivity.
Qed.

(** ** More on the worker *)

Lemma disposedAtOnce_cons (e : Event) (t : list Event) :
  isHandlerCall e = false -> disposedAtOnce t -> disposedAtOnce (e :: t).
Proof.
  intros He Ht [|x pre] d r post Heq; simpl in Heq.
  - inversion Heq; subst e. discriminate He.
  - inversion Heq; subst. eapply Ht. reflexivity.
Qed.

Lemma disposedAtOnce_handled d r res (t : list Event) :
  disposedAtOnce t ->
  disposedAtOnce
    (EvHandler d r
     :: EvDisposition d (if r then Ack false else Nack false true) res :: t).
Proof.
  intros Ht [|x [|y pre]] d' r' post Heq; simpl in Heq.
  - inversion Heq; subst. do 2 eexists. reflexivity.
  - inversion Heq.
  - inversion Heq; subst. eapply Ht. reflexivity.
Qed.

(** X5.  With auto-ack off a worker settles each delivery before it takes
    the next: every handler call is directly followed by the disposition of
    that same delivery, [Ack(false)] or [Nack(false, true)] according to the
    boolean returned. *)
Theorem worker_disposes_before_next_delivery
    consumer handler consumeOptions msgs w :
  ConsumerAutoAck consumeOptions = false ->
  let t := added w (snd (workerLoop consumer handler consumeOptions msgs w)) in
  forall pre d r post,
    t = pre ++ EvHandler d r :: post ->
    exists res post',
      post = EvDisposition d (if r then Ack false else Nack false true) res
             :: post'.
Proof.
  intros Hauto t. subst t. rewrite workerLoop_world, added_app.
  fold (disposedAtOnce (workerEvents consumer handler consumeOptions msgs w)).
  revert w. induction msgs as [|msg rest IH]; intros w; simpl.
  - apply disposedAtOnce_cons; [reflexivity|].
    intros [|x pre] d r post Heq; discriminate Heq.
  - specialize (IH (w ++ deliveryEvents consumer handler consumeOptions msg w)).
    revert IH. generalize (workerEvents consumer handler consumeOptions rest
      (w ++ deliveryEvents consumer handler consumeOptions msg w)).
    unfold deliveryEvents. rewrite Hauto. intros t Ht. simpl.
    apply disposedAtOnce_handled.
    match goal with
    | |- context [acknowledge ?c ?w' ?d ?k] =>
        destruct (acknowledge c w' d k) as [e|]
    end; simpl; [|exact Ht].
    apply disposedAtOnce_cons; [|exact Ht].
    destruct (handler w msg); reflexivity.
Qed.

(** X6.  A worker logs once for each disposition that fails and once when
    its stream closes, and at no other time. *)
Theorem worker_logs_only_failures_and_closing
    consumer handler consumeOptions msgs w :
  let t := added w (snd (workerLoop consumer handler consumeOptions msgs w)) in
  List.length (filter isPrintf t)
  = S (List.length (filter isFailedDisposition t)).
Proof.
  intros t. subst t. rewrite workerLoop_world, added_app.
  revert w. induction msgs as [|msg rest IH]; intros w; simpl;
    [reflexivity|].
  rewrite !filter_app, !length_app, IH.
  unfold deliveryEvents.
  destruct (ConsumerAutoAck consumeOptions); [reflexivity|].
  match goal with
  | |- context [acknowledge ?c ?w' ?d ?k] =>
      destruct (acknowledge c w' d k) as [e|]
  end; [destruct (handler w msg)|]; reflexivity.
Qed.

(** ** What StartConsuming itself never does *)

Lemma cycleEvent_handlerCalls (t : list Event) :
  forallb cycleEvent t = true -> handlerCalls t = [].
Proof.
  induction t as [|e t IH]; [reflexivity|]. simpl.
  intros H. apply andb_true_iff in H. destruct H as [He Ht].
  rewrite (IH Ht). destruct e; try reflexivity; discriminate He.
Qed.

Lemma cycleEvent_dispositions (t : list Event) :
  forallb cycleEvent t = true -> dispositions t = [].
Proof.
  induction t as [|e t IH]; [reflexivity|]. simpl.
  intros H. apply andb_true_iff in H. destruct H as [He Ht].
  rewrite (IH Ht). destruct e; try reflexivity; discriminate He.
Qed.

Lemma StartConsuming_world consumer handler queue routingKeys optionFuncs w :
  exists t,
    snd (StartConsuming consumer handler queue routingKeys optionFuncs w)
    = w ++ t ++ match fst (StartConsuming consumer handler queue routingKeys
                             optionFuncs w) with
                | Some _ => []
                | None => [EvGo Supervisor]
                end /\
    forallb cycleEvent t = true.
Proof.
  destruct (appends_startGoroutines consumer handler queue routingKeys
              (resolveOptions optionFuncs) w) as [t [Ht Pt]].
  exists t. split; [|exact Pt].
  unfold StartConsuming, orReturn, bind.
  destruct (startGoroutines consumer handler queue routingKeys
              (resolveOptions optionFuncs) w) as [[e|] w1];
    simpl in *; subst w1.
  - rewrite app_nil_r. reflexivity.
  - rewrite <- app_assoc. reflexivity.
Qed.

(** X7.  [StartConsuming] itself never sleeps, never calls the handler and
    never acknowledges or rejects a delivery: all of that is left to the
    goroutines it starts. *)
Theorem StartConsuming_neither_sleeps_nor_handles
    consumer handler queue routingKeys optionFuncs w :
  let t := added w (snd (StartConsuming consumer handler queue routingKeys
                           optionFuncs w)) in
  sleeps t = [] /\ handlerCalls t = [] /\ dispositions t = [].
Proof.
  intros t. subst t.
  destruct (StartConsuming_world consumer handler queue routingKeys
              optionFuncs w) as [t [Ht Pt]].
  rewrite Ht, added_app, sleeps_app, handlerCalls_app, dispositions_app.
  rewrite (cycleEvent_sleeps t Pt), (cycleEvent_handlerCalls t Pt),
    (cycleEvent_dispositions t Pt).
  destruct (fst (StartConsuming consumer handler queue routingKeys
                   optionFuncs w)); repeat split; reflexivity.
Qed.

(** ** Resolving the options *)

Lemma setConcurrency_same (o : ConsumeOptions) :
  setConcurrency (Concurrency o) o = o.
Proof. destruct o; reflexivity. Qed.

(** Defaulting touches the concurrency only. *)
Lemma resolveOptions_changes_only_concurrency optionFuncs :
  let configured := applyOptionFuncs optionFuncs zeroConsumeOptions in
  resolveOptions optionFuncs
  = setConcurrency (Concurrency (resolveOptions optionFuncs)) configured /\
  (1 <= Concurrency configured -> resolveOptions optionFuncs = configured).
Proof.
  intros configured. unfold resolveOptions. fold configured.
  destruct (Concurrency configured <? 1) eqn:E.
  - split; [reflexivity|]. intros H. apply Z.ltb_lt in E. lia.
  - split; [|reflexivity]. symmetry. apply setConcurrency_same.
Qed.

(** ** Supervision *)

Lemma supervise_step fuel err rest consumer handler queue routingKeys opts w :
  supervise fuel (err :: rest) consumer handler queue routingKeys opts w
  = match startGoroutinesWithRetries fuel consumer handler queue routingKeys
            opts (w ++ [triggerLog err]) with
    | (Exited, w') =>
        supervise fuel rest consumer handler queue routingKeys opts w'
    | (StillRetrying, w') => (StillRetrying, w')
    end.
Proof.
  simpl. unfold bind, Printf, emit, triggerLog. simpl.
  destruct (startGoroutinesWithRetries fuel consumer handler queue
              routingKeys opts _) as [[|] w']; reflexivity.
Qed.

(** X8.  On a transport on which every cycle succeeds, the supervising
    goroutine answers each notification with one log line, one sleep of one
    second and one successful cycle, in the order of the notifications: the
    backoff starts again at one second for every notification, each
    notification spawns a fresh set of workers, and the goroutine ends when
    the notifications do. *)
Theorem supervise_restarts_once_per_notification
    fuel notifications consumer handler queue routingKeys consumeOptions :
  (forall w, fst (startGoroutines consumer handler queue routingKeys
                    consumeOptions w) = None) ->
  forall w,
  supervise (S fuel) notifications consumer handler queue routingKeys
    consumeOptions w
  = (Exited,
     w ++ flat_map
            (fun err =>
               triggerLog err :: waitingLog Second :: EvSleep Second
               :: successEvents queue routingKeys consumeOptions)
            notifications).
Proof.
  intros Hok. induction notifications as [|err rest IH]; intros w.
  - simpl. unfold ret. rewrite app_nil_r. reflexivity.
  - rewrite supervise_step. unfold startGoroutinesWithRetries.
    rewrite retryLoop_step. unfold attempt.
    pose proof (startGoroutines_success consumer handler queue routingKeys
                  consumeOptions
                  ((w ++ [triggerLog err])
                   ++ [waitingLog Second; EvSleep Second]) (Hok _)) as Hs.
    specialize (Hok ((w ++ [triggerLog err])
                     ++ [waitingLog Second; EvSleep Second])).
    destruct (startGoroutines consumer handler queue routingKeys
                consumeOptions _) as [r w']. simpl in Hok, Hs. subst r w'.
    rewrite IH. simpl. f_equal. tidy. reflexivity.
Qed.

Lemma retryLoop_all_fail consumer handler queue routingKeys opts :
  (forall w, fst (startGoroutines consumer handler queue routingKeys opts w)
             <> None) ->
  forall fuel b w,
  fst (retryLoop fuel b consumer handler queue routingKeys opts w)
  = StillRetrying.
Proof.
  intros Hfail. induction fuel as [|fuel IH]; intros b w; [reflexivity|].
  rewrite retryLoop_step. unfold attempt.
  specialize (Hfail (w ++ [waitingLog b; EvSleep b])).
  destruct (startGoroutines consumer handler queue routingKeys opts _)
    as [[e|] w']; simpl in Hfail; [apply IH | congruence].
Qed.

(** X9.  While every cycle fails, the recovery loop has not exited after any
    number of attempts, and the supervising goroutine stays in it: the
    notifications that follow the first are never read. *)
Theorem supervise_stays_in_failing_recovery
    fuel err rest consumer handler queue routingKeys consumeOptions w :
  (forall w', fst (startGoroutines consumer handler queue routingKeys
                     consumeOptions w') <> None) ->
  supervise fuel (err :: rest) consumer handler queue routingKeys
    consumeOptions w
  = (StillRetrying,
     snd (startGoroutinesWithRetries fuel consumer handler queue routingKeys
            consumeOptions (w ++ [triggerLog err]))).
Proof.
  intros Hfail. rewrite supervise_step.
  pose proof (retryLoop_all_fail consumer handler queue routingKeys
                consumeOptions Hfail fuel Second (w ++ [triggerLog err]))
    as Hr.
  unfold startGoroutinesWithRetries.
  destruct (retryLoop fuel Second consumer handler queue routingKeys
              consumeOptions (w ++ [triggerLog err])) as [r w'].
  simpl in Hr. subst r. reflexivity.
Qed.

(** ** Arithmetic of the backoff *)

Lemma sumZ_app (a b : list Z) : sumZ (a ++ b) = sumZ a + sumZ b.
Proof.
  induction a as [|x a IH]; simpl; [reflexivity|]. rewrite IH. lia.
Qed.

Lemma sumZ_powers (m : nat) :
  sumZ (map (fun j => Second * 2 ^ Z.of_nat j) (seq 0 m))
  = Second * (2 ^ Z.of_nat m - 1).
Proof.
  induction m as [|m IH]; [reflexivity|].
  rewrite seq_S, map_app, sumZ_app, IH.
  cbn [map sumZ fold_right Nat.add].
  rewrite Nat2Z.inj_succ, Z.pow_succ_r by lia. lia.
Qed.

(** X10.  As long as the recovery loop has slept at most 34 times, the time
    it has slept in total is [2^m - 1] seconds, [m] being the number of
    attempts made. *)
Theorem retry_total_sleep
    fuel consumer handler queue routingKeys consumeOptions w :
  let t := added w (snd (startGoroutinesWithRetries fuel consumer handler
                           queue routingKeys consumeOptions w)) in
  (List.length (sleeps t) <= 34)%nat ->
  sumZ (sleeps t) = Second * (2 ^ Z.of_nat (List.length (sleeps t)) - 1).
Proof.
  intros t. subst t. unfold startGoroutinesWithRetries.
  destruct (retryLoop_sleeps consumer handler queue routingKeys
              consumeOptions fuel Second w) as [m [t [Ht St]]].
  rewrite Ht, added_app, St, length_map, length_seq. intros Hm.
  rewrite <- sumZ_powers. f_equal. apply map_ext_in.
  intros j Hj. apply in_seq in Hj. rewrite backoffAt_Second.
  replace j with (S j - 1)%nat at 1 2 by lia.
  apply backoff_without_overflow. lia.
Qed.

Lemma backoff_vanishes (j : nat) :
  (55 <= j)%nat -> wrap64 (Second * 2 ^ Z.of_nat j) = 0.
Proof.
  intros Hj. unfold wrap64, Second.
  replace (Z.of_nat j) with (Z.of_nat (j - 55) + 55) by lia.
  rewrite Z.pow_add_r by lia.
  replace (1000000000 * (2 ^ Z.of_nat (j - 55) * 2 ^ 55) + 2 ^ 63)
    with (2 ^ 63 + (1953125 * 2 ^ Z.of_nat (j - 55)) * 2 ^ 64).
  - rewrite Z_mod_plus_full. reflexivity.
  - change (2 ^ 64) with (512 * 2 ^ 55). lia.
Qed.

(** X11.  The backoff does not grow for ever: [backoffTime] is a 64-bit
    count of nanoseconds, and after 55 doublings of one second it is zero
    and stays zero, so from its 56th attempt on the recovery loop retries
    without any delay. *)
Theorem retry_backoff_is_zero_from_attempt_56
    fuel consumer handler queue routingKeys consumeOptions w :
  let t := added w (snd (startGoroutinesWithRetries fuel consumer handler
                           queue routingKeys consumeOptions w)) in
  forall k, (56 <= k <= List.length (sleeps t))%nat ->
            nth (k - 1) (sleeps t) 1 = 0.
Proof.
  intros t. subst t. unfold startGoroutinesWithRetries.
  destruct (retryLoop_sleeps consumer handler queue routingKeys
              consumeOptions fuel Second w) as [m [t [Ht St]]].
  rewrite Ht, added_app, St, length_map, length_seq. intros k Hk.
  rewrite (nth_indep _ 1 (backoffAt Second 0))
    by (rewrite length_map, length_seq; lia).
  rewrite (map_nth (backoffAt Second)), seq_nth by lia. simpl.
  rewrite backoffAt_Second. apply backoff_vanishes. lia.
Qed.

Lemma appends_retry consumer handler queue routingKeys opts :
  forall fuel b w,
  exists t,
    snd (retryLoop fuel b consumer handler queue routingKeys opts w) = w ++ t.
Proof.
  intros fuel b w.
  destruct (retryLoop_sleeps consumer handler queue routingKeys opts fuel b w)
    as [m [t [Ht _]]].
  exists t. exact Ht.
Qed.

(** ** Recovery and the workers *)

Lemma startGoroutines_spawned consumer handler queue routingKeys opts w :
  spawned (added w (snd (startGoroutines consumer handler queue routingKeys
                           opts w)))
  = match fst (startGoroutines consumer handler queue routingKeys opts w) with
    | None => repeat (WorkerLoop (ConsumerAutoAck opts))
                (Z.to_nat (Concurrency opts))
    | Some _ => []
    end.
Proof.
  destruct (startGoroutines_outcome consumer handler queue routingKeys opts w)
    as [t [Ht Ho]].
  unfold cycleOutcome in Ho. cbv zeta in Ho. rewrite Ht, added_app.
  destruct Ho as [[Hr Hs] | [[done [c [rest [e [_ [Hr Hf]]]]]]
                             | [ex [_ [_ [Hr Hc]]]]]]; subst t; rewrite Hr.
  - change (EvRLock :: map ok (plannedCalls queue routingKeys opts)
            ++ startEvents opts ++ [EvRUnlock])
      with ([EvRLock] ++ map ok (plannedCalls queue routingKeys opts)
            ++ startEvents opts ++ [EvRUnlock]).
    rewrite !spawned_app, spawned_map_ok, spawned_startEvents. simpl.
    apply app_nil_r.
  - change (spawned (map ok done ++ [EvChannel c (Some e); EvRUnlock]) = []).
    rewrite spawned_app, spawned_map_ok. reflexivity.
  - reflexivity.
Qed.

(** X15.  Only the attempt that succeeds starts workers: a recovery loop
    that has exited has spawned exactly one pool of [Concurrency] workers,
    whatever the number of failed attempts before it, and a loop that is
    still retrying has spawned none. *)
Theorem recovery_spawns_one_pool
    fuel consumer handler queue routingKeys consumeOptions w :
  let run := startGoroutinesWithRetries fuel consumer handler queue
               routingKeys consumeOptions w in
  spawned (added w (snd run))
  = match fst run with
    | Exited => repeat (WorkerLoop (ConsumerAutoAck consumeOptions))
                  (Z.to_nat (Concurrency consumeOptions))
    | StillRetrying => []
    end.
Proof.
  intros run. subst run. unfold startGoroutinesWithRetries.
  generalize Second. revert w.
  induction fuel as [|fuel IH]; intros w b.
  - simpl. unfold ret. simpl. rewrite <- (app_nil_r w) at 2.
    rewrite added_app. reflexivity.
  - rewrite retryLoop_step. unfold attempt.
    pose proof (startGoroutines_spawned consumer handler queue routingKeys
                  consumeOptions (w ++ [waitingLog b; EvSleep b])) as Hsp.
    destruct (appends_startGoroutines consumer handler queue routingKeys
                consumeOptions (w ++ [waitingLog b; EvSleep b]))
      as [c [Hc _]].
    destruct (startGoroutines consumer handler queue routingKeys
                consumeOptions (w ++ [waitingLog b; EvSleep b]))
      as [[e|] w']; simpl in Hsp, Hc; subst w'; rewrite added_app in Hsp.
    + specialize (IH (((w ++ [waitingLog b; EvSleep b]) ++ c)
                      ++ [failureLog e]) (wrap64 (b * 2))).
      destruct (appends_retry consumer handler queue routingKeys
                  consumeOptions fuel (wrap64 (b * 2))
                  (((w ++ [waitingLog b; EvSleep b]) ++ c)
                   ++ [failureLog e])) as [t Ht].
      rewrite Ht in *. rewrite added_app in IH. rewrite <- IH.
      rewrite <- !app_assoc, added_app. simpl.
      rewrite !spawned_app, Hsp. reflexivity.
    + simpl. rewrite <- app_assoc, added_app. simpl.
      rewrite Hsp. reflexivity.
Qed.

(** X16.  The recovery loop never meets an exchange without a name: when
    [StartConsuming] has returned nil, and so has started the supervising
    goroutine, a binding descriptor in the options has a name, and a later
    cycle that fails returns the error of the channel method that failed,
    its last call. *)
Theorem supervised_cycles_fail_only_on_the_channel
    consumer handler queue routingKeys optionFuncs w :
  fst (StartConsuming consumer handler queue routingKeys optionFuncs w) = None
  ->
  (forall exchange,
     BindingExchange (resolveOptions optionFuncs) = Some exchange ->
     Name exchange <> "") /\
  (forall w' e,
     fst (startGoroutines consumer handler queue routingKeys
            (resolveOptions optionFuncs) w') = Some e ->
     exists n,
       channelResults
         (added w' (snd (startGoroutines consumer handler queue routingKeys
                           (resolveOptions optionFuncs) w')))
       = repeat None n ++ [Some e]).
Proof.
  intros Hok.
  assert (Hfirst : fst (startGoroutines consumer handler queue routingKeys
                          (resolveOptions optionFuncs) w) = None).
  { revert Hok. unfold StartConsuming, orReturn, bind.
    destruct (startGoroutines consumer handler queue routingKeys
                (resolveOptions optionFuncs) w) as [[e|] w1]; simpl;
      [discriminate | reflexivity]. }
  assert (Hnamed : forall exchange,
            BindingExchange (resolveOptions optionFuncs) = Some exchange ->
            Name exchange <> "").
  { intros exchange Hex Hname.
    rewrite (startGoroutines_empty_name consumer handler queue routingKeys
               (resolveOptions optionFuncs) exchange w Hex Hname) in Hfirst.
    simpl in Hfirst.
    destruct (call (channel (chManager consumer)) (w ++ [EvRLock])
                (queueDeclareCall queue (resolveOptions optionFuncs)));
      discriminate Hfirst. }
  split; [exact Hnamed|].
  intros w' e Hfail.
  destruct (startGoroutines_outcome consumer handler queue routingKeys
              (resolveOptions optionFuncs) w') as [t [Ht Ho]].
  unfold cycleOutcome in Ho. cbv zeta in Ho.
  rewrite Ht, added_app. rewrite Hfail in Ho.
  destruct Ho as [[Hr Hs] | [[done [c [rest [e' [_ [He Hf]]]]]]
                             | [ex [Hex [Hname _]]]]].
  - discriminate Hr.
  - inversion He; subst e' t. exists (List.length done).
    change (channelResults (map ok done ++ [EvChannel c (Some e); EvRUnlock])
            = repeat None (List.length done) ++ [Some e]).
    rewrite channelResults_app, channelResults_map_ok. reflexivity.
  - exfalso. exact (Hnamed ex Hex Hname).
Qed.

End Consumer.

(** * Defaults *)

(** X12.  Of the default options only the concurrency is ever used: two sets
    of defaults with the same concurrency give the same [StartConsuming],
    and when the configured concurrency is at least one the defaults play no
    part at all.  An option that no option function sets reaches the cycle as
    the zero value of its type, not as its default. *)
Theorem defaults_matter_only_through_concurrency
    {Table AMQPTable : Type} (tableToAMQPTable : Table -> AMQPTable)
    (nilTable : Table) (defaults defaults' : @ConsumeOptions Table)
    (consumer : @Consumer AMQPTable) (handler : @Handler AMQPTable)
    (queue : string) (routingKeys : list string)
    (optionFuncs : list (@ConsumeOptions Table -> @ConsumeOptions Table))
    (w : @World AMQPTable) :
  Concurrency defaults = Concurrency defaults' \/
  1 <= Concurrency (applyOptionFuncs optionFuncs (zeroConsumeOptions nilTable))
  ->
  StartConsuming tableToAMQPTable nilTable defaults consumer handler queue
    routingKeys optionFuncs w
  = StartConsuming tableToAMQPTable nilTable defaults' consumer handler queue
      routingKeys optionFuncs w.
Proof.
  intros H.
  assert (Hr : resolveOptions nilTable defaults optionFuncs
               = resolveOptions nilTable defaults' optionFuncs).
  { unfold resolveOptions.
    destruct (Concurrency (applyOptionFuncs optionFuncs
                             (zeroConsumeOptions nilTable)) <? 1) eqn:E;
      [|reflexivity].
    destruct H as [H | H]; [rewrite H; reflexivity|].
    apply Z.ltb_lt in E. lia. }
  unfold StartConsuming. rewrite Hr. reflexivity.
Qed.

(** * Constructing a consumer (consume.go, lines 11-86) *)

Section Construction.

Context {AMQPTable : Type}.

(** [amqp.Config], [tls.Config] and the implementations of the [Logger]
    interface that callers bring are declared outside consume.go. *)
Context {Config TLSConfig CustomLogger : Type}.

(** A non-nil value of the interface [Logger]: the two implementations
    consume.go names, or one of the caller's. *)
Inductive Logger : Type :=
| noLogger
| stdLogger
| customLogger (l : CustomLogger).

(** [ConsumerOptions]; a nil [Logger] field is [None]. *)
Record ConsumerOptions : Type := mkConsumerOptions {
  Logging : bool;
  OptionsLogger : option Logger
}.

(** The struct [Consumer] as [NewConsumer] returns it; its zero value has
    both fields nil. *)
Record ConsumerStruct : Type := mkConsumerStruct {
  chManagerPtr : option (@channelManager AMQPTable);
  logger : option Logger
}.

(** [newChannelManager] and [newChannelManagerTLS] are defined outside
    consume.go; each returns a pointer and an error. *)
Variable newChannelManager :
  string -> Config -> Logger -> option (@channelManager AMQPTable) * option error.
Variable newChannelManagerTLS :
  string -> TLSConfig -> Logger
  -> option (@channelManager AMQPTable) * option error.

(** [&ConsumerOptions{}] after [for _, optionFunc := range optionFuncs]. *)
Definition applyConsumerOptionFuncs
    (optionFuncs : list (ConsumerOptions -> ConsumerOptions))
  : ConsumerOptions :=
  fold_left (fun o optionFunc => optionFunc o) optionFuncs
    {| Logging := false; OptionsLogger := None |}.

(** [options.Logger] after
    [if options.Logger == nil { options.Logger = &noLogger{} }]. *)
Definition loggerOrDefault (options : ConsumerOptions) : Logger :=
  match OptionsLogger options with
  | Some l => l
  | None => noLogger
  end.

Definition NewConsumer (url : string) (config : Config)
    (optionFuncs : list (ConsumerOptions -> ConsumerOptions))
  : ConsumerStruct * option error :=
  let options := applyConsumerOptionFuncs optionFuncs in
  let l := loggerOrDefault options in
  let (chManager, err) := newChannelManager url config l in
  match err with
  | Some e => ({| chManagerPtr := None; logger := None |}, Some e)
  | None => ({| chManagerPtr := chManager; logger := Some l |}, None)
  end.

Definition NewConsumerTLS (url : string) (config : TLSConfig)
    (optionFuncs : list (ConsumerOptions -> ConsumerOptions))
  : ConsumerStruct * option error :=
  let options := applyConsumerOptionFuncs optionFuncs in
  let l := loggerOrDefault options in
  let (chManager, err) := newChannelManagerTLS url config l in
  match err with
  | Some e => ({| chManagerPtr := None; logger := None |}, Some e)
  | None => ({| chManagerPtr := chManager; logger := Some l |}, None)
  end.

Definition WithConsumerOptionsLogging (options : ConsumerOptions)
  : ConsumerOptions :=
  {| Logging := true; OptionsLogger := Some stdLogger |}.

(** [log] is an interface value and may be nil. *)
Definition WithConsumerOptionsLogger (log : option Logger)
    (options : ConsumerOptions) : ConsumerOptions :=
  {| Logging := true; OptionsLogger := log |}.

Lemma applyConsumerOptionFuncs_last optionFuncs optionFunc :
  applyConsumerOptionFuncs (optionFuncs ++ [optionFunc])
  = optionFunc (applyConsumerOptionFuncs optionFuncs).
Proof.
  unfold applyConsumerOptionFuncs. rewrite fold_left_app. reflexivity.
Qed.

(** X13.  [NewConsumer] reads nothing of its options but the logger: two
    lists of option functions that leave the same [Logger] field build the
    same consumer, so the [Logging] flag on its own changes nothing.  When
    the channel manager cannot be created the caller gets its error and the
    zero consumer; otherwise the consumer's logger is never nil, and it is
    the logger the channel manager was created with. *)
Theorem NewConsumer_depends_only_on_logger url config optionFuncs :
  let l := loggerOrDefault (applyConsumerOptionFuncs optionFuncs) in
  let r := NewConsumer url config optionFuncs in
  (forall optionFuncs',
     OptionsLogger (applyConsumerOptionFuncs optionFuncs')
     = OptionsLogger (applyConsumerOptionFuncs optionFuncs) ->
     NewConsumer url config optionFuncs' = r) /\
  snd r = snd (newChannelManager url config l) /\
  (snd r <> None ->
   fst r = {| chManagerPtr := None; logger := None |}) /\
  (snd r = None ->
   chManagerPtr (fst r) = fst (newChannelManager url config l) /\
   logger (fst r) = Some l).
Proof.
  intros l r. subst r. unfold NewConsumer. fold l.
  split; [|destruct (newChannelManager url config l) as [m [e|]]; simpl;
           repeat split; congruence].
  intros optionFuncs' H.
  assert (Hl : loggerOrDefault (applyConsumerOptionFuncs optionFuncs') = l).
  { unfold l, loggerOrDefault. rewrite H. reflexivity. }
  rewrite Hl. reflexivity.
Qed.

(** X14.  Of the logger options the last one decides.  After
    [WithConsumerOptionsLogging] the consumer logs through the standard
    logger; after [WithConsumerOptionsLogger] through the logger given, or
    through the no-op logger when that logger is nil; and with no option at
    all through the no-op logger.  [NewConsumerTLS] chooses alike. *)
Theorem last_logger_option_decides url config tlsConfig optionFuncs log :
  let chosen := fun fs => loggerOrDefault (applyConsumerOptionFuncs fs) in
  chosen [] = noLogger /\
  chosen (optionFuncs ++ [WithConsumerOptionsLogging]) = stdLogger /\
  chosen (optionFuncs ++ [WithConsumerOptionsLogger log])
  = match log with Some l => l | None => noLogger end /\
  (forall fs,
     snd (NewConsumer url config fs) = None ->
     logger (fst (NewConsumer url config fs)) = Some (chosen fs)) /\
  (forall fs,
     snd (NewConsumerTLS url tlsConfig fs) = None ->
     logger (fst (NewConsumerTLS url tlsConfig fs)) = Some (chosen fs)).
Proof.
  intros chosen. subst chosen. cbv beta.
  rewrite !applyConsumerOptionFuncs_last.
  split; [reflexivity|]. split; [reflexivity|]. split; [reflexivity|].
  split; intros fs.
  - unfold NewConsumer.
    destruct (newChannelManager url config _) as [m [e|]]; simpl;
      [discriminate | reflexivity].
  - unfold NewConsumerTLS.
    destruct (newChannelManagerTLS url tlsConfig _) as [m [e|]]; simpl;
      [discriminate | reflexivity].
Qed.

End Construction.

(** * Concrete runs *)

(** Tables as association lists of strings, converted by copying. *)
Definition StringTable : Type := list (string * string).

Definition copyTable (t : StringTable) : StringTable := t.

Definition noTable : StringTable := [].

(** Default options whose concurrency is one. *)
Definition singleWorkerDefaults : @ConsumeOptions StringTable :=
  setConcurrency 1 (zeroConsumeOptions noTable).

Definition withConcurrency (n : Z)
  : @ConsumeOptions StringTable -> @ConsumeOptions StringTable :=
  setConcurrency n.

Definition withAutoAck (o : @ConsumeOptions StringTable)
  : @ConsumeOptions StringTable :=
  {| QueueDurable := QueueDurable o; QueueAutoDelete := QueueAutoDelete o;
     QueueExclusive := QueueExclusive o; QueueNoWait := QueueNoWait o;
     QueueArgs := QueueArgs o; BindingExchange := BindingExchange o;
     BindingNoWait := BindingNoWait o; BindingArgs := BindingArgs o;
     Concurrency := Concurrency o;
     QOSPrefetch := QOSPrefetch o; QOSGlobal := QOSGlobal o;
     ConsumerName := ConsumerName o; ConsumerAutoAck := true;
     ConsumerExclusive := ConsumerExclusive o;
     ConsumerNoWait := ConsumerNoWait o; ConsumerNoLocal := ConsumerNoLocal o;
     ConsumerArgs := ConsumerArgs o |}.

Definition withBindingExchange (name kind : string)
    (o : @ConsumeOptions StringTable) : @ConsumeOptions StringTable :=
  {| QueueDurable := QueueDurable o; QueueAutoDelete := QueueAutoDelete o;
     QueueExclusive := QueueExclusive o; QueueNoWait := QueueNoWait o;
     QueueArgs := QueueArgs o;
     BindingExchange :=
       Some {| Name := name; Kind := kind; Durable := false;
               AutoDelete := false; Internal := false; NoWait := false;
               ExchangeArgs := noTable |};
     BindingNoWait := BindingNoWait o; BindingArgs := BindingArgs o;
     Concurrency := Concurrency o;
     QOSPrefetch := QOSPrefetch o; QOSGlobal := QOSGlobal o;
     ConsumerName := ConsumerName o; ConsumerAutoAck := ConsumerAutoAck o;
     ConsumerExclusive := ConsumerExclusive o;
     ConsumerNoWait := ConsumerNoWait o; ConsumerNoLocal := ConsumerNoLocal o;
     ConsumerArgs := ConsumerArgs o |}.

Definition unnamedExchange : @BindingExchangeOptions StringTable :=
  {| Name := ""; Kind := "direct"; Durable := false; AutoDelete := false;
     Internal := false; NoWait := false; ExchangeArgs := noTable |}.

Definition eventsExchange : @BindingExchangeOptions StringTable :=
  {| Name := "events"; Kind := "direct"; Durable := false;
     AutoDelete := false; Internal := false; NoWait := false;
     ExchangeArgs := noTable |}.

Definition channelClosed : error :=
  AmqpError 504 "channel/connection is not open".

(** A transport on which every call succeeds. *)
Definition healthyConsumer : @Consumer StringTable :=
  mkConsumer
    (mkChannelManager
       (mkChannel (fun _ _ => None) (fun _ _ _ => None)) []).

(** A transport on which every call fails. *)
Definition closedConsumer : @Consumer StringTable :=
  mkConsumer
    (mkChannelManager
       (mkChannel (fun _ _ => Some channelClosed)
          (fun _ _ _ => Some channelClosed)) []).

(** A transport whose channel methods fail until the consumer has slept
    [n] times, and on which dispositions succeed. *)
Definition recoveringConsumer (n : nat) : @Consumer StringTable :=
  mkConsumer
    (mkChannelManager
       (mkChannel
          (fun w _ =>
             if (List.length (sleeps w) <? n)%nat then Some channelClosed
             else None)
          (fun _ _ _ => None)) [channelClosed]).

(** A handler that accepts the deliveries of even tag. *)
Definition acceptEven : @Handler StringTable :=
  fun _ d => Z.even (DeliveryTag d).

Definition delivery0 : Delivery := mkDelivery 0 "zero".
Definition delivery1 : Delivery := mkDelivery 1 "one".

Definition manualAck : @ConsumeOptions StringTable :=
  zeroConsumeOptions noTable.

(** A transport on which the binding with a given routing key fails and
    every other call succeeds. *)
Definition rejectingKey (key : string) : @Consumer StringTable :=
  mkConsumer
    (mkChannelManager
       (mkChannel
          (fun _ c =>
             match c with
             | QueueBind _ k _ _ _ =>
                 if String.eqb k key then Some channelClosed else None
             | _ => None
             end)
          (fun _ _ _ => None)) []).

(** A dial that fails on the empty URL and otherwise returns a manager
    whose channel always succeeds. *)
Definition dialUnlessEmpty (url : string) (_ : unit)
    (_ : @Logger string)
  : option (@channelManager StringTable) * option error :=
  if String.eqb url "" then (None, Some channelClosed)
  else (Some (chManager healthyConsumer), None).

Definition onlyLogging (o : @ConsumerOptions string)
  : @ConsumerOptions string :=
  {| Logging := true; OptionsLogger := OptionsLogger o |}.

Lemma worker_disposes_each_delivery_once_witness :
  ConsumerAutoAck manualAck = false /\
  let t := added []
             (snd (workerLoop healthyConsumer acceptEven manualAck
                     [delivery0; delivery1] [])) in
  map fst (handlerCalls t) = [delivery0; delivery1] /\
  dispositions t = map dispositionFor (handlerCalls t).
Proof.
  split; [reflexivity|]. intros t.
  destruct (worker_disposes_each_delivery_once healthyConsumer acceptEven
              manualAck [delivery0; delivery1] [] eq_refl) as [H1 [H2 _]].
  split; [exact H1 | exact H2].
Defined.

Lemma worker_auto_ack_ignores_handler_result_witness :
  ConsumerAutoAck (withAutoAck manualAck) = true /\
  let t := added []
             (snd (workerLoop closedConsumer acceptEven (withAutoAck manualAck)
                     [delivery0; delivery1] [])) in
  map fst (handlerCalls t) = [delivery0; delivery1] /\
  dispositions t = [] /\
  map eraseResult t
  = map (fun d => EvHandler d true) [delivery0; delivery1] ++ [closedLog].
Proof.
  split; [reflexivity|].
  apply (worker_auto_ack_ignores_handler_result closedConsumer acceptEven
           (withAutoAck manualAck) [delivery0; delivery1] []).
  reflexivity.
Defined.

Lemma worker_survives_failed_dispositions_witness :
  let t := added []
             (snd (workerLoop closedConsumer acceptEven manualAck
                     [delivery0; delivery1] [])) in
  t = [EvHandler delivery0 true]
      ++ EvDisposition delivery0 (Ack false) (Some channelClosed)
      :: skipn 2 t /\
  exists post, skipn 2 t = dispositionLog (Ack false) channelClosed :: post.
Proof.
  intros t.
  assert (H : t = [EvHandler delivery0 true]
                  ++ EvDisposition delivery0 (Ack false) (Some channelClosed)
                  :: skipn 2 t) by reflexivity.
  split; [exact H|].
  exact (proj1 (proj2 (proj2
           (worker_survives_failed_dispositions copyTable noTable
              singleWorkerDefaults closedConsumer acceptEven manualAck
              [delivery0; delivery1] [])))
           _ _ _ _ _ H).
Defined.

Lemma successful_cycle_binds_each_routing_key_witness :
  let options := withBindingExchange "events" "direct" manualAck in
  BindingExchange options = Some eventsExchange /\
  Name eventsExchange <> "" /\
  fst (startGoroutines copyTable healthyConsumer acceptEven "jobs"
         ["created"; "deleted"] options []) = None /\
  filter isQueueBind
    (channelCalls
       (added []
          (snd (startGoroutines copyTable healthyConsumer acceptEven "jobs"
                  ["created"; "deleted"] options []))))
  = [QueueBind "jobs" "created" "events" false noTable;
     QueueBind "jobs" "deleted" "events" false noTable].
Proof.
  intros options.
  assert (Hex : BindingExchange options = Some eventsExchange)
    by reflexivity.
  assert (Hname : Name eventsExchange <> "") by discriminate.
  assert (Hok : fst (startGoroutines copyTable healthyConsumer acceptEven
                       "jobs" ["created"; "deleted"] options []) = None)
    by reflexivity.
  split; [exact Hex|]. split; [exact Hname|]. split; [exact Hok|].
  exact (proj1 (successful_cycle_binds_each_routing_key copyTable
                  healthyConsumer acceptEven "jobs" ["created"; "deleted"]
                  options eventsExchange [] Hex Hname Hok)).
Defined.

Lemma nil_binding_ignores_routing_keys_witness :
  BindingExchange (applyOptionFuncs [withConcurrency 2]
                     (zeroConsumeOptions noTable)) = None /\
  StartConsuming copyTable noTable singleWorkerDefaults healthyConsumer
    acceptEven "jobs" ["created"; "deleted"] [withConcurrency 2] []
  = StartConsuming copyTable noTable singleWorkerDefaults healthyConsumer
      acceptEven "jobs" [] [withConcurrency 2] [].
Proof.
  split; [reflexivity|].
  apply (nil_binding_ignores_routing_keys copyTable noTable
           singleWorkerDefaults healthyConsumer acceptEven "jobs"
           [withConcurrency 2] ["created"; "deleted"] [] []).
  reflexivity.
Defined.

Lemma queue_declared_before_exchange_name_check_witness :
  let options := withBindingExchange "" "direct" manualAck in
  let run := startGoroutines copyTable healthyConsumer acceptEven "jobs"
               ["created"] options [] in
  BindingExchange options = Some unnamedExchange /\
  Name unnamedExchange = "" /\
  added [] (snd run)
  = [EvRLock;
     EvChannel (QueueDeclare "jobs" false false false false noTable) None;
     EvRUnlock] /\
  fst run = Some configError.
Proof.
  intros options run.
  assert (Hex : BindingExchange options = Some unnamedExchange)
    by reflexivity.
  assert (Hname : Name unnamedExchange = "") by reflexivity.
  split; [exact Hex|]. split; [exact Hname|].
  destruct (queue_declared_before_exchange_name_check copyTable
              healthyConsumer acceptEven "jobs" ["created"] options
              unnamedExchange [] Hex Hname) as [Ht [Hcfg _]].
  split; [exact Ht | exact (Hcfg eq_refl)].
Defined.

(** Against C4 as the spec words it: with an unnamed exchange configured on a channel
    whose queue declaration fails, the cycle and [StartConsuming] return the
    transport's error, which is not the configuration error. *)
Lemma empty_exchange_name_on_closed_channel :
  let optionFuncs := [withBindingExchange "" "direct"] in
  BindingExchange (applyOptionFuncs optionFuncs (zeroConsumeOptions noTable))
  = Some unnamedExchange /\
  Name unnamedExchange = "" /\
  fst (startGoroutines copyTable closedConsumer acceptEven "jobs" ["created"]
         (resolveOptions noTable singleWorkerDefaults optionFuncs) [])
  = Some channelClosed /\
  fst (StartConsuming copyTable noTable singleWorkerDefaults closedConsumer
         acceptEven "jobs" ["created"] optionFuncs [])
  = Some channelClosed /\
  Some channelClosed <> Some configError.
Proof.
  intros optionFuncs. repeat split; discriminate.
Qed.

Lemma empty_exchange_name_fails_first_start_witness :
  let optionFuncs := [withBindingExchange "" "direct"] in
  BindingExchange (applyOptionFuncs optionFuncs (zeroConsumeOptions noTable))
  = Some unnamedExchange /\
  Name unnamedExchange = "" /\
  fst (StartConsuming copyTable noTable singleWorkerDefaults healthyConsumer
         acceptEven "jobs" ["created"] optionFuncs [])
  = Some configError.
Proof.
  intros optionFuncs.
  assert (Hex : BindingExchange (applyOptionFuncs optionFuncs
                                   (zeroConsumeOptions noTable))
                = Some unnamedExchange) by reflexivity.
  assert (Hname : Name unnamedExchange = "") by reflexivity.
  split; [exact Hex|]. split; [exact Hname|].
  destruct (empty_exchange_name_fails_first_start copyTable noTable
              singleWorkerDefaults healthyConsumer acceptEven "jobs"
              ["created"] optionFuncs unnamedExchange [] Hex Hname)
    as [_ [_ [Hcfg _]]].
  exact (Hcfg eq_refl).
Defined.

Lemma StartConsuming_spawns_concurrency_workers_witness :
  1 <= Concurrency singleWorkerDefaults /\
  fst (StartConsuming copyTable noTable singleWorkerDefaults healthyConsumer
         acceptEven "jobs" [] [withConcurrency 3] []) = None /\
  Z.of_nat
    (List.length
       (filter isWorker
          (spawned
             (added []
                (snd (StartConsuming copyTable noTable singleWorkerDefaults
                        healthyConsumer acceptEven "jobs" []
                        [withConcurrency 3] [])))))) = 3.
Proof.
  assert (Hdef : 1 <= Concurrency singleWorkerDefaults) by (simpl; lia).
  assert (Hok : fst (StartConsuming copyTable noTable singleWorkerDefaults
                       healthyConsumer acceptEven "jobs" []
                       [withConcurrency 3] []) = None) by reflexivity.
  split; [exact Hdef|]. split; [exact Hok|].
  destruct (StartConsuming_spawns_concurrency_workers copyTable noTable
              singleWorkerDefaults healthyConsumer acceptEven "jobs" []
              [withConcurrency 3] [] Hdef) as [_ [_ [_ [_ Hspawn]]]].
  exact (Hspawn Hok).
Defined.


(** Against C3 as the spec words it: the 35th delay of a loop whose cycles keep failing
    is one second doubled 34 times in [int64], a negative duration, and not
    one second times [2^34]. *)
Lemma backoff_overflows_at_attempt_35 :
  let t := added []
             (snd (startGoroutinesWithRetries copyTable 35 closedConsumer
                     acceptEven "jobs" [] manualAck [])) in
  List.length (sleeps t) = 35%nat /\
  nth 33 (sleeps t) 0 = Second * 2 ^ 33 /\
  nth 34 (sleeps t) 0 = -1266874889709551616 /\
  nth 34 (sleeps t) 0 <> Second * 2 ^ (35 - 1).
Proof.
  vm_compute. repeat split; discriminate.
Qed.

Lemma retry_backoff_doubles_until_first_success_witness :
  let cycle := fun j =>
    attemptAt copyTable j Second (recoveringConsumer 3) acceptEven "jobs" []
      manualAck [] in
  let run := startGoroutinesWithRetries copyTable 5 (recoveringConsumer 3)
               acceptEven "jobs" [] manualAck [] in
  (fst (cycle 0%nat) <> None /\ fst (cycle 1%nat) <> None /\
   fst (cycle 2%nat) = None) /\
  run = (Exited, snd (cycle 2%nat)) /\
  List.length (sleeps (added [] (snd run))) = 3%nat.
Proof.
  intros cycle run.
  assert (H0 : fst (cycle 0%nat) <> None) by (vm_compute; discriminate).
  assert (H1 : fst (cycle 1%nat) <> None) by (vm_compute; discriminate).
  assert (H2 : fst (cycle 2%nat) = None) by (vm_compute; reflexivity).
  split; [split; [exact H0 | split; [exact H1 | exact H2]]|].
  assert (Hfail : forall j, (j < 3 - 1)%nat -> fst (cycle j) <> None).
  { intros [|[|j]] Hj; [exact H0 | exact H1 | lia]. }
  exact (proj2 (proj2 (proj2
           (retry_backoff_doubles_until_first_success copyTable 5
              (recoveringConsumer 3) acceptEven "jobs" [] manualAck []))) 
           3%nat (conj (le_S _ _ (le_S _ _ (le_n 1))) 
                       (le_S _ _ (le_S _ _ (le_n 3)))) Hfail H2).
Defined.

(** ** Runs for the further properties *)

Lemma failed_cycle_stops_at_first_error_witness :
  let run := startGoroutines copyTable (recoveringConsumer 1) acceptEven
               "jobs" ["created"]
               (withBindingExchange "events" "direct" manualAck) [] in
  fst run = Some channelClosed /\
  spawned (added [] (snd run)) = [] /\
  ((exists n, channelResults (added [] (snd run))
              = repeat None n ++ [Some channelClosed]) \/
   (channelClosed = configError /\
    channelResults (added [] (snd run)) = [None] /\
    exists exchange,
      BindingExchange (withBindingExchange "events" "direct" manualAck)
      = Some exchange /\ Name exchange = "")).
Proof.
  intros run.
  assert (Hfail : fst run = Some channelClosed) by reflexivity.
  split; [exact Hfail|].
  exact (failed_cycle_stops_at_first_error copyTable (recoveringConsumer 1)
           acceptEven "jobs" ["created"]
           (withBindingExchange "events" "direct" manualAck) []
           channelClosed Hfail).
Defined.

Lemma cycle_binds_initial_routing_keys_witness :
  let options := withBindingExchange "events" "direct" manualAck in
  let run := startGoroutines copyTable (rejectingKey "deleted") acceptEven
               "jobs" ["created"; "deleted"; "renamed"] options [] in
  BindingExchange options = Some eventsExchange /\
  exists bound unbound,
    ["created"; "deleted"; "renamed"] = bound ++ unbound /\
    filter isQueueBind (channelCalls (added [] (snd run)))
    = map (fun k => QueueBind "jobs" k "events" false (copyTable noTable))
        bound /\
    (fst run = None -> unbound = []).
Proof.
  intros options run.
  assert (Hex : BindingExchange options = Some eventsExchange)
    by reflexivity.
  split; [exact Hex|].
  exact (cycle_binds_initial_routing_keys copyTable (rejectingKey "deleted")
           acceptEven "jobs" ["created"; "deleted"; "renamed"] options
           eventsExchange [] Hex).
Defined.

Lemma successful_cycle_call_order_witness :
  let options := withConcurrency 2 manualAck in
  let run := startGoroutines copyTable healthyConsumer acceptEven "jobs"
               ["created"] options [] in
  fst run = None /\
  channelCalls (added [] (snd run))
  = [QueueDeclare "jobs" false false false false noTable;
     Qos 0 0 false;
     Consume "jobs" "" false false false false noTable] /\
  spawned (added [] (snd run)) = [WorkerLoop false; WorkerLoop false].
Proof.
  intros options run.
  assert (Hok : fst run = None) by reflexivity.
  split; [exact Hok|].
  destruct (successful_cycle_call_order copyTable healthyConsumer acceptEven
              "jobs" ["created"] options [] Hok) as [Hc [_ [Hs _]]].
  split; [exact Hc | exact Hs].
Defined.

Lemma worker_disposes_before_next_delivery_witness :
  let t := added []
             (snd (workerLoop healthyConsumer acceptEven manualAck
                     [delivery0; delivery1] [])) in
  ConsumerAutoAck manualAck = false /\
  t = [EvHandler delivery0 true; EvDisposition delivery0 (Ack false) None]
      ++ EvHandler delivery1 false :: skipn 3 t /\
  exists res post,
    skipn 3 t = EvDisposition delivery1 (Nack false true) res :: post.
Proof.
  intros t.
  assert (Hauto : ConsumerAutoAck manualAck = false) by reflexivity.
  assert (Ht : t = [EvHandler delivery0 true;
                    EvDisposition delivery0 (Ack false) None]
                   ++ EvHandler delivery1 false :: skipn 3 t)
    by reflexivity.
  split; [exact Hauto|]. split; [exact Ht|].
  exact (worker_disposes_before_next_delivery healthyConsumer acceptEven
           manualAck [delivery0; delivery1] [] Hauto _ _ _ _ Ht).
Defined.

Lemma supervise_restarts_once_per_notification_witness :
  (forall w, fst (startGoroutines copyTable healthyConsumer acceptEven "jobs"
                    [] manualAck w) = None) /\
  sleeps (snd (supervise copyTable 1 [channelClosed; channelClosed]
                 healthyConsumer acceptEven "jobs" [] manualAck []))
  = [Second; Second].
Proof.
  assert (Hok : forall w,
            fst (startGoroutines copyTable healthyConsumer acceptEven "jobs"
                   [] manualAck w) = None) by (intros w; reflexivity).
  split; [exact Hok|].
  rewrite (supervise_restarts_once_per_notification copyTable 0
             [channelClosed; channelClosed] healthyConsumer acceptEven
             "jobs" [] manualAck Hok []).
  reflexivity.
Defined.

Lemma supervise_stays_in_failing_recovery_witness :
  (forall w, fst (startGoroutines copyTable closedConsumer acceptEven "jobs"
                    [] manualAck w) <> None) /\
  fst (supervise copyTable 4 [channelClosed; channelClosed] closedConsumer
         acceptEven "jobs" [] manualAck []) = StillRetrying.
Proof.
  assert (Hfail : forall w,
            fst (startGoroutines copyTable closedConsumer acceptEven "jobs"
                   [] manualAck w) <> None) by (intros w; discriminate).
  split; [exact Hfail|].
  rewrite (supervise_stays_in_failing_recovery copyTable 4 channelClosed
             [channelClosed] closedConsumer acceptEven "jobs" [] manualAck
             [] Hfail).
  reflexivity.
Defined.

Lemma retry_total_sleep_witness :
  let t := added []
             (snd (startGoroutinesWithRetries copyTable 3 closedConsumer
                     acceptEven "jobs" [] manualAck [])) in
  (List.length (sleeps t) <= 34)%nat /\
  sumZ (sleeps t) = Second * (2 ^ Z.of_nat (List.length (sleeps t)) - 1).
Proof.
  intros t.
  assert (Hm : (List.length (sleeps t) <= 34)%nat)
    by (vm_compute; repeat constructor).
  split; [exact Hm|].
  exact (retry_total_sleep copyTable 3 closedConsumer acceptEven "jobs" []
           manualAck [] Hm).
Defined.

Lemma retry_backoff_is_zero_from_attempt_56_witness :
  let t := added []
             (snd (startGoroutinesWithRetries copyTable 56 closedConsumer
                     acceptEven "jobs" [] manualAck [])) in
  (56 <= 56 <= List.length (sleeps t))%nat /\ nth (56 - 1) (sleeps t) 1 = 0.
Proof.
  intros t.
  assert (Hk : (56 <= 56 <= List.length (sleeps t))%nat).
  { split; [apply le_n|]. vm_compute. apply le_n. }
  split; [exact Hk|].
  exact (retry_backoff_is_zero_from_attempt_56 copyTable 56 closedConsumer
           acceptEven "jobs" [] manualAck [] 56%nat Hk).
Defined.

Lemma defaults_matter_only_through_concurrency_witness :
  let defaults' :=
    withAutoAck (withBindingExchange "events" "topic" singleWorkerDefaults) in
  (Concurrency singleWorkerDefaults = Concurrency defaults' \/
   1 <= Concurrency (applyOptionFuncs [] (zeroConsumeOptions noTable))) /\
  StartConsuming copyTable noTable singleWorkerDefaults healthyConsumer
    acceptEven "jobs" ["created"] [] []
  = StartConsuming copyTable noTable defaults' healthyConsumer acceptEven
      "jobs" ["created"] [] [].
Proof.
  intros defaults'.
  assert (H : Concurrency singleWorkerDefaults = Concurrency defaults' \/
              1 <= Concurrency (applyOptionFuncs []
                                  (zeroConsumeOptions noTable)))
    by (left; reflexivity).
  split; [exact H|].
  exact (defaults_matter_only_through_concurrency copyTable noTable
           singleWorkerDefaults defaults' healthyConsumer acceptEven "jobs"
           ["created"] [] [] H).
Defined.

Lemma NewConsumer_depends_only_on_logger_witness :
  OptionsLogger (applyConsumerOptionFuncs [onlyLogging])
  = OptionsLogger (applyConsumerOptionFuncs []) /\
  NewConsumer dialUnlessEmpty "amqp://localhost" tt [onlyLogging]
  = NewConsumer dialUnlessEmpty "amqp://localhost" tt [] /\
  logger (fst (NewConsumer dialUnlessEmpty "amqp://localhost" tt
                 [onlyLogging])) = Some noLogger.
Proof.
  assert (H : OptionsLogger (applyConsumerOptionFuncs [onlyLogging])
              = OptionsLogger (applyConsumerOptionFuncs []))
    by reflexivity.
  split; [exact H|].
  destruct (NewConsumer_depends_only_on_logger dialUnlessEmpty
              "amqp://localhost" tt []) as [Hsame _].
  split; [exact (Hsame [onlyLogging] H)|].
  rewrite (Hsame [onlyLogging] H). reflexivity.
Defined.

Lemma last_logger_option_decides_witness :
  let fs := [WithConsumerOptionsLogger (Some (customLogger "mine"));
             WithConsumerOptionsLogging] in
  snd (NewConsumer dialUnlessEmpty "amqp://localhost" tt fs) = None
  /\
  logger (fst (NewConsumer dialUnlessEmpty "amqp://localhost" tt
                 fs)) = Some stdLogger.
Proof.
  intros fs.
  assert (Hok : snd (NewConsumer dialUnlessEmpty
                       "amqp://localhost" tt fs) = None) by reflexivity.
  split; [exact Hok|].
  destruct (last_logger_option_decides dialUnlessEmpty
              dialUnlessEmpty "amqp://localhost" tt tt [] None)
    as [_ [_ [_ [Hnew _]]]].
  rewrite (Hnew fs Hok). reflexivity.
Defined.

Lemma supervised_cycles_fail_only_on_the_channel_witness :
  let optionFuncs := [withBindingExchange "events" "direct"] in
  fst (StartConsuming copyTable noTable singleWorkerDefaults healthyConsumer
         acceptEven "jobs" ["created"] optionFuncs []) = None /\
  BindingExchange (resolveOptions noTable singleWorkerDefaults optionFuncs)
  = Some eventsExchange /\
  Name eventsExchange <> "".
Proof.
  intros optionFuncs.
  assert (Hok : fst (StartConsuming copyTable noTable singleWorkerDefaults
                       healthyConsumer acceptEven "jobs" ["created"]
                       optionFuncs []) = None) by reflexivity.
  assert (Hex : BindingExchange
                  (resolveOptions noTable singleWorkerDefaults optionFuncs)
                = Some eventsExchange) by reflexivity.
  split; [exact Hok|]. split; [exact Hex|].
  exact (proj1 (supervised_cycles_fail_only_on_the_channel copyTable noTable
                  singleWorkerDefaults healthyConsumer acceptEven "jobs"
                  ["created"] optionFuncs [] Hok) eventsExchange Hex).
Defined.
